(** * keiba-scatter: the join / classify / render pipeline of [pipeline.py]

    A shallow embedding of the pure core of [src/pipeline.py] and the
    properties of it that the specification states.

    Conventions of the embedding.
    - A Python [str] is a Rocq [string] holding its UTF-8 bytes.  Equality of
      the byte strings is equality of the Python strings, and the byte-wise
      lexicographic order is the code-point order Python compares with.
    - A value that comes out of [json.load] is a [json].  A Python [float] is
      carried as the rational it was written as; the code modelled here
      never computes with floats, it stores them, tests them against [None]
      and passes them on.
    - A [dict] used as a lookup table is a [gmap]; a [dict] that is iterated
      is an association list in insertion order.
    - Code that can raise returns an [exc]; the first exception wins, as in
      Python. *)

From Stdlib Require Import ZArith Ascii String QArith.
From stdpp Require Import base option list gmap strings sorting pretty.

Set Warnings "-register-all,-clear-no-such-hyp".

Local Open Scope string_scope.
Local Open Scope Z_scope.

(* ================================================================== *)
(** ** Python values and exceptions *)
(* ================================================================== *)

Module Py.

(** What [json.load] can return. [JNull] is Python's [None]. *)
Inductive json : Type :=
  | JNull
  | JBool (b : bool)
  | JInt (z : Z)
  | JFloat (q : Q)
  | JStr (s : string)
  | JArr (l : list json)
  | JObj (m : gmap string json).

(** [v is None] *)
Definition is_None (v : json) : bool :=
  match v with JNull => true | _ => false end.

(** The exceptions the modelled code can raise. *)
Inductive exn : Type :=
  | KeyError (k : string)
  | TypeError
  | AttributeError.

Inductive exc (A : Type) : Type :=
  | Ok (a : A)
  | Raise (e : exn).
Arguments Ok {A} a.
Arguments Raise {A} e.

Definition bind {A B} (c : exc A) (k : A → exc B) : exc B :=
  match c with
  | Ok a => k a
  | Raise e => Raise e
  end.

(** [for x in l: ... f x ...], collecting the results; stops at the first
    exception. *)
Fixpoint for_each {A B} (f : A → exc B) (l : list A) : exc (list B) :=
  match l with
  | [] => Ok []
  | x :: l' =>
      bind (f x) (λ y, bind (for_each f l') (λ ys, Ok (y :: ys)))
  end.

(** [v[k]] for a string key [k]: only a dict can be indexed by a string;
    a missing key is a [KeyError], anything that is not a dict is a
    [TypeError]. *)
Definition getitem (v : json) (k : string) : exc json :=
  match v with
  | JObj m =>
      match m !! k with
      | Some x => Ok x
      | None => Raise (KeyError k)
      end
  | _ => Raise TypeError
  end.

(** [v.get(k)]: [None] for a missing key; only a dict has the method. *)
Definition get (v : json) (k : string) : exc json :=
  match v with
  | JObj m => Ok (default JNull (m !! k))
  | _ => Raise AttributeError
  end.

(** [json.load] of a JSON object, given its members in file order: a
    Python [dict] is built member by member, so that a later member
    replaces an earlier one with the same key. *)
Definition json_load_object (members : list (string * json))
  : gmap string json :=
  fold_left (λ d kv, <[kv.1 := kv.2]> d) members ∅.

End Py.
Import Py.

Notation "'let!' x ':=' c 'in' k" := (Py.bind c (λ x, k))
  (at level 10, x name, c at level 100, k at level 200).

(* ================================================================== *)
(** ** Venue codes (lines 29-33, 96-97, 143-144) *)
(* ================================================================== *)

Module VenueCodec.

Definition VENUE_CODES : gmap string string :=
  list_to_map
    [ ("01", "札幌"); ("02", "函館"); ("03", "福島"); ("04", "新潟");
      ("05", "東京"); ("06", "中山"); ("07", "中京"); ("08", "京都");
      ("09", "阪神"); ("10", "小倉") ].

(** [VENUE_CODES.get(venue_code, '?')] *)
Definition decode (venue_code : string) : string :=
  default "?" (VENUE_CODES !! venue_code).

(** [rid[4:6]]: a Python slice never raises, it is cut short when the
    string is.  Race ids are ASCII digits ([race_id=(\d+)] in a URL), one
    byte each. *)
Definition venue_code_of (rid : string) : string := substring 4 2 rid.

(** The ten venue names. *)
Definition canonical_venues : list string :=
  [ "札幌"; "函館"; "福島"; "新潟"; "東京";
    "中山"; "中京"; "京都"; "阪神"; "小倉" ].

End VenueCodec.

(* ================================================================== *)
(** ** Race data (lines 171-180, 222-229) *)
(* ================================================================== *)

Module Data.

(** One past run of a horse: the dict that [get_horse_results] builds
    (lines 222-229): [date], [venue], [surface] and [race_name] are
    [str], [distance] is an [int], [result] is an [int] or [None].
    [link_cushion_data] adds the keys [cushion] and [moisture]; their
    values come out of the condition table, so they are [json].  Before
    the join the two keys are missing, which [r.get] reads as [None]. *)
Record run : Type := {
  date : string;
  venue : string;
  surface : string;
  distance : Z;
  race_name : string;
  result : option Z;
  cushion : json;
  moisture : json;
}.

(** [race_data['race_info']] (lines 172-178). *)
Record race_info : Type := {
  ri_race_id : string;
  ri_race_name : string;
  ri_venue : string;
  ri_surface : string;
  ri_distance : Z;
}.

(** [race_data]: [horses] is a dict from the horse's name to its runs,
    iterated with [.items()], that is in insertion order. *)
Record race_data : Type := {
  info : race_info;
  horses : list (string * list run);
}.

(** [r['cushion'] = c] and [r['moisture'] = m] *)
Definition set_cushion (c : json) (r : run) : run :=
  {| date := date r; venue := venue r; surface := surface r;
     distance := distance r; race_name := race_name r;
     result := result r; cushion := c; moisture := moisture r |}.

Definition set_moisture (m : json) (r : run) : run :=
  {| date := date r; venue := venue r; surface := surface r;
     distance := distance r; race_name := race_name r;
     result := result r; cushion := cushion r; moisture := m |}.

End Data.
Import Data.

(* ================================================================== *)
(** ** Step 4: the join, [link_cushion_data] (lines 237-257) *)
(* ================================================================== *)

Module Join.

(** [f"{date}_{venue}"] *)
Definition key_of (r : run) : string := date r ++ "_" ++ venue r.

(** The body of the inner loop, for one run [r].  [surface] is
    [r.get('surface', '芝')]; the key is always there in a dict built by
    [get_horse_results], so the default is not taken.  [cushion_db] is
    the dict loaded from the condition table: its values are whatever
    the file holds. *)
Definition link_run (cushion_db : gmap string json) (r : run) : exc run :=
  let surface := surface r in
  let key := key_of r in
  match cushion_db !! key with
  | Some entry =>
      let! c := getitem entry "cushion" in
      let r := set_cushion c r in
      if bool_decide (surface = "ダ") || bool_decide (surface = "ダート")
      then
        let! m := get entry "dirt_goal" in
        Ok (set_moisture m r)
      else
        let! m := get entry "turf_goal" in
        Ok (set_moisture m r)
  | None =>
      Ok (set_moisture JNull (set_cushion JNull r))
  end.

(** The two loops: over the horses, then over the runs of each.  The
    runs are updated in place and the same [race_data] is returned; an
    exception leaves the function, and [main], at once, so that what was
    updated before it is seen by nobody. *)
Definition link_horse (cushion_db : gmap string json)
    (h : string * list run) : exc (string * list run) :=
  let! races := for_each (link_run cushion_db) h.2 in
  Ok (h.1, races).

Definition link_cushion_data (rd : race_data)
    (cushion_db : gmap string json) : exc race_data :=
  let! hs := for_each (link_horse cushion_db) (horses rd) in
  Ok {| info := info rd; horses := hs |}.

End Join.

(* ================================================================== *)
(** ** Step 5: the scatter page, [generate_scatter_html] (lines 261-567) *)
(* ================================================================== *)

Module Renderer.

(** The value of [cat]: the strings ['same_dist'], ['diff_dist'] and
    ['diff_surface']. *)
Inductive category : Type := same_dist | diff_dist | diff_surface.

(** One element of [js_races] (lines 282-293). *)
Record js_race : Type := {
  js_date : string;
  js_venue : string;
  js_surface : string;
  js_distance : Z;
  js_race_name : string;
  js_result : option Z;
  js_cushion : json;
  js_moisture : json;
  cat : category;
  good : bool;
}.

(** One element of [js_horses] (line 294). *)
Record js_horse : Type := {
  name : string;
  races : list js_race;
}.

(** Lines 275-280. [surface] and [distance] are those of the race the
    page is made for, [race_info['surface']] and
    [race_info['distance']]. *)
Definition classify (r : run) (surface : string) (distance : Z)
  : category :=
  if negb (bool_decide (Data.surface r = surface)) then diff_surface
  else if bool_decide (Data.distance r = distance) then same_dist
  else diff_dist.

(** [r['result'] is not None and r['result'] <= 3] *)
Definition is_good (res : option Z) : bool :=
  match res with
  | Some n => bool_decide (n ≤ 3)
  | None => false
  end.

(** Lines 282-293. *)
Definition js_of_run (surface : string) (distance : Z) (r : run)
  : js_race :=
  {| js_date := date r;
     js_venue := venue r;
     js_surface := Data.surface r;
     js_distance := Data.distance r;
     js_race_name := race_name r;
     js_result := result r;
     js_cushion := cushion r;
     js_moisture := moisture r;
     cat := classify r surface distance;
     good := is_good (result r) |}.

(** One turn of the inner loop (lines 272-293): [continue] leaves
    [js_races] as it is, otherwise one element is appended. *)
Definition render_run (surface : string) (distance : Z)
    (js_races : list js_race) (r : run) : list js_race :=
  if is_None (cushion r) || is_None (moisture r) then js_races
  else (js_races ++ [js_of_run surface distance r])%list.

(** One turn of the outer loop (lines 270-294). *)
Definition render_horse (surface : string) (distance : Z)
    (js_horses : list js_horse) (h : string * list run)
  : list js_horse :=
  let js_races := fold_left (render_run surface distance) h.2 [] in
  (js_horses ++ [{| name := h.1; races := js_races |}])%list.

(** Lines 269-294: the list handed to [json.dumps]. *)
Definition js_horses_of (rd : race_data) : list js_horse :=
  fold_left
    (render_horse (ri_surface (info rd)) (ri_distance (info rd)))
    (horses rd) [].

(** The page: the values that the fixed template (lines 302-560)
    interpolates.  [HORSES], [TX], [TY] and [TDIST] are the constants of
    the script; [HORSES] is [json.dumps(js_horses)], which writes the list
    in order and each dict with its keys in the order they were given. *)
Record page : Type := {
  pg_venue : string;
  pg_race_num : Z;
  pg_race_name : string;
  pg_surface : string;
  pg_date_label : string;
  color_same : string;
  color_diff : string;
  color_other : string;
  HORSES : list js_horse;
  TX : json;
  TY : json;
  TDIST : Z;
}.

(** Lines 297-300. *)
Definition surface_label (surface : string) : string :=
  if bool_decide (surface = "芝") then "芝" else "ダート".

(** The page written to [output_path] and the triple returned (lines
    565-567). *)
Definition generate_scatter_html (rd : race_data)
    (target_cushion target_moisture : json)
    (date_label : string) (race_num : Z) : page * (nat * nat * nat) :=
  let race_info := info rd in
  let venue := ri_venue race_info in
  let race_name := ri_race_name race_info in
  let surface := ri_surface race_info in
  let distance := ri_distance race_info in
  let js_horses := js_horses_of rd in
  let html :=
    {| pg_venue := venue; pg_race_num := race_num;
       pg_race_name := race_name; pg_surface := surface;
       pg_date_label := date_label;
       color_same := "同距離" ++ surface_label surface;
       color_diff := "他距離" ++ surface_label surface;
       color_other :=
         if bool_decide (surface = "芝") then "ダート" else "芝レース";
       HORSES := js_horses;
       TX := target_cushion; TY := target_moisture;
       TDIST := distance |} in
  let total_pts := sum_list ((λ h, length (races h)) <$> js_horses) in
  let horses_with_data :=
    length (filter (λ h, races h ≠ []) js_horses) in
  (html, (total_pts, horses_with_data, length js_horses)).

End Renderer.

(* ================================================================== *)
(** ** The index page, [generate_index] (lines 723-779) *)
(* ================================================================== *)

Module Index.

(** An element of [results_summary]:
    [(venue, race_num, race_name, total, pts)] (line 703). *)
Abbreviation summary := (string * Z * string * nat * nat)%type.

(** An element of [venues[venue]]: [(rnum, rname, total, pts)]. *)
Abbreviation entry := (Z * string * nat * nat)%type.

(** Lines 726-729: [venues], the races of each venue in the order they
    come in [results_summary]. *)
Definition add_summary (venues : gmap string (list entry)) (s : summary)
  : gmap string (list entry) :=
  let '(venue, rnum, rname, total, pts) := s in
  let venues :=
    match venues !! venue with
    | None => <[venue := []]> venues
    | Some _ => venues
    end in
  alter (λ l, (l ++ [(rnum, rname, total, pts)])%list) venue venues.

Definition group_by_venue (results_summary : list summary)
  : gmap string (list entry) :=
  fold_left add_summary results_summary ∅.

(** How Python compares two tuples: item by item, and the first pair of
    items that differ decides.  A tuple [(a, b, c, d)] is the nested pair
    [(((a, b), c), d)]. *)
Definition lex {A B : Type} (cmp_a : A → A → comparison)
    (cmp_b : B → B → comparison) (x y : A * B) : comparison :=
  match cmp_a x.1 y.1 with
  | Eq => cmp_b x.2 y.2
  | c => c
  end.

(** The order [sorted] puts the tuples [(rnum, rname, total, pts)] in:
    integers by value, strings by code point. *)
Definition entry_compare : entry → entry → comparison :=
  lex (lex (lex Z.compare String.compare) Nat.compare) Nat.compare.

Definition entry_leb (a b : entry) : bool :=
  match entry_compare a b with
  | Gt => false
  | _ => true
  end.

Definition entry_le (a b : entry) : Prop := entry_leb a b = true.

#[global] Instance entry_le_dec (a b : entry) : Decision (entry_le a b).
Proof. unfold entry_le. apply _. Defined.

(** [sorted(venues[venue])] *)
Definition sorted (l : list entry) : list entry := merge_sort entry_le l.

(** [rname.replace('/', '_').replace(' ', '')]: both characters are
    ASCII, so the replacement is the same on the UTF-8 bytes. *)
Fixpoint replace_slash (s : string) : string :=
  match s with
  | EmptyString => EmptyString
  | String c s' =>
      String (if Ascii.eqb c "/"%char then "_"%char else c)
             (replace_slash s')
  end.

Fixpoint remove_space (s : string) : string :=
  match s with
  | EmptyString => EmptyString
  | String c s' =>
      if Ascii.eqb c " "%char then remove_space s'
      else String c (remove_space s')
  end.

Definition safe_name (rname : string) : string :=
  remove_space (replace_slash rname).

(** [f"{n:02d}"] *)
Definition fmt_02d (n : Z) : string :=
  if bool_decide (0 ≤ n < 10) then "0" ++ pretty n else pretty n.

(** [f'scatter_{venue}{rnum:02d}R_{safe_name}.html'] (lines 695, 770). *)
Definition scatter_file_name (venue : string) (rnum : Z) (rname : string)
  : string :=
  "scatter_" ++ venue ++ fmt_02d rnum ++ "R_" ++ safe_name rname ++ ".html".

(** One [<a href=...>] line (line 771). *)
Record link : Type := {
  href : string;
  l_rnum : Z;
  l_rname : string;
  l_total : nat;
  l_pts : nat;
}.

Definition link_of (venue : string) (e : entry) : link :=
  let '(rnum, rname, total, pts) := e in
  {| href := scatter_file_name venue rnum rname;
     l_rnum := rnum; l_rname := rname; l_total := total; l_pts := pts |}.

(** [venue_info[venue]] (lines 732-736): the three values that the
    string [f'CV={c} 芝{tm}% ダ{dm}%'] shows. *)
Definition venue_info_of (data : gmap string json) : json * json * json :=
  (default (JStr "?") (data !! "cushion"),
   default (JStr "?") (data !! "turf_moisture"),
   default (JStr "?") (data !! "dirt_moisture")).

(** One [<div class="venue">] block (lines 767-772); [sec_info] is
    [None] for the empty string of [venue_info.get(venue, '')]. *)
Record section : Type := {
  sec_venue : string;
  sec_info : option (json * json * json);
  sec_links : list link;
}.

(** The list that line 763 walks through. *)
Definition VENUE_ORDER : list string :=
  [ "東京"; "京都"; "小倉"; "中山"; "阪神";
    "中京"; "新潟"; "福島"; "函館"; "札幌" ].

(** One turn of the loop of lines 763-772; [html] is the list of the
    blocks written so far. *)
Definition index_venue (venues : gmap string (list entry))
    (venue_info : gmap string (json * json * json))
    (html : list section) (venue : string) : list section :=
  match venues !! venue with
  | None => html
  | Some es =>
      (html ++ [{| sec_venue := venue;
                   sec_info := venue_info !! venue;
                   sec_links := link_of venue <$> sorted es |}])%list
  end.

(** The index page: its title and its blocks, in the order written. *)
Record index_page : Type := {
  ix_date_label : string;
  sections : list section;
}.

Definition generate_index (results_summary : list summary)
    (jra_live : gmap string (gmap string json)) (date_label : string)
  : index_page :=
  let venues := group_by_venue results_summary in
  let venue_info := venue_info_of <$> jra_live in
  {| ix_date_label := date_label;
     sections :=
       fold_left (index_venue venues venue_info) VENUE_ORDER [] |}.

End Index.

(* ================================================================== *)
(** ** The pipeline, [main] (lines 571-720) *)
(* ================================================================== *)

Module Pipeline.

(** An element of the list that [get_race_list] returns (lines
    109-117). *)
Record race : Type := {
  race_id : string;
  venue : string;
  race_num : Z;
  race_name : string;
  surface : string;
  distance : Z;
  text : string;
}.

(** The command line: [--venue] and [--race], [None] when not given. *)
Record arguments : Type := {
  arg_venue : option string;
  arg_race : option Z;
}.

(** Lines 594-601.  [if args.venue:] and [if args.race:] test the truth
    of the value: an empty string and the number 0 filter nothing. *)
Definition filter_races (args : arguments) (races : list race)
  : list race :=
  let races :=
    match arg_venue args with
    | Some v =>
        if bool_decide (v = "") then races
        else filter (λ r, venue r = v) races
    | None => races
    end in
  let races :=
    match arg_race args with
    | Some n =>
        if bool_decide (n = 0) then races
        else filter (λ r, race_num r = n) races
    | None => races
    end in
  filter (λ r, surface r ≠ "障") races.

(** Lines 687-691: the point the page is drawn against.  [jra_live] maps
    a venue to the measurements [fetch_jra_live] found for it. *)
Definition target_cushion (jra_live : gmap string (gmap string json))
    (venue : string) : json :=
  default (JFloat 9.5) (default ∅ (jra_live !! venue) !! "cushion").

Definition target_moisture (jra_live : gmap string (gmap string json))
    (venue surface : string) : json :=
  if bool_decide (surface = "ダ") then
    default (JFloat 5.0) (default ∅ (jra_live !! venue) !! "dirt_moisture")
  else
    default (JFloat 12.0) (default ∅ (jra_live !! venue) !! "turf_moisture").

(** What the run does to the outside, in the order it does it. *)
Inductive event : Type :=
  | Scraped (rid : string)
  | CacheWritten (rid : string) (rd : race_data)
  | PageWritten (out_dir file : string) (p : Renderer.page)
  | IndexWritten (out_dir : string) (ix : Index.index_page).

(** The cache directory, by race id, and what was done so far. *)
Record world : Type := {
  cache : gmap string race_data;
  trace : list event;
}.

Definition emit (e : event) (w : world) : world :=
  {| cache := cache w; trace := (trace w ++ [e])%list |}.

Section with_scraper.

(** The roster and history adapters: what [scrape_race_data] returns
    for a race id, [None] when the entry table is not found.  A fault
    of the network is not part of the model. *)
Variable scrape_race_data : string → option race_data.

(** Lines 663-681: the cached file when there is one (the two first
    branches do the same), the scrape otherwise, saved to the cache
    when it gave something. *)
Definition get_or_fetch (rid : string) (w : world)
  : world * option race_data :=
  match cache w !! rid with
  | Some race_data => (w, Some race_data)
  | None =>
      let w := emit (Scraped rid) w in
      match scrape_race_data rid with
      | None => (w, None)
      | Some race_data =>
          ({| cache := <[rid := race_data]> (cache w);
              trace := (trace w ++ [CacheWritten rid race_data])%list |},
           Some race_data)
      end
  end.

(** One turn of the loop of lines 655-703. *)
Definition process_race (jra_live : gmap string (gmap string json))
    (cushion_db : gmap string json) (out_dir date_label : string)
    (w : world) (results_summary : list Index.summary) (r : race)
  : world * exc (list Index.summary) :=
  let rid := race_id r in
  let venue := venue r in
  let race_num := race_num r in
  let surface := surface r in
  match get_or_fetch rid w with
  | (w, None) => (w, Ok results_summary)
  | (w, Some race_data) =>
      match Join.link_cushion_data race_data cushion_db with
      | Raise e => (w, Raise e)
      | Ok race_data =>
          let target_cushion := target_cushion jra_live venue in
          let target_moisture := target_moisture jra_live venue surface in
          let output_file :=
            Index.scatter_file_name venue race_num (race_name r) in
          let '(html, (pts, with_data, total)) :=
            Renderer.generate_scatter_html race_data
              target_cushion target_moisture date_label race_num in
          (emit (PageWritten out_dir output_file html) w,
           Ok (results_summary ++
               [(venue, race_num, race_name r, total, pts)])%list)
      end
  end.

Fixpoint process_races (jra_live : gmap string (gmap string json))
    (cushion_db : gmap string json) (out_dir date_label : string)
    (w : world) (results_summary : list Index.summary)
    (races : list race) : world * exc (list Index.summary) :=
  match races with
  | [] => (w, Ok results_summary)
  | r :: races' =>
      match process_race jra_live cushion_db out_dir date_label
              w results_summary r with
      | (w, Ok results_summary) =>
          process_races jra_live cushion_db out_dir date_label
            w results_summary races'
      | (w, Raise e) => (w, Raise e)
      end
  end.

(** [main], from the race list on.  [races] is what [get_race_list]
    returned, [jra_live] what step 2 found, [table] the members of the
    condition table file.  The upload that [--deploy] asks for comes
    after all this and is left out. *)
Definition main (args : arguments) (date_str out_dir : string)
    (races : list race) (jra_live : gmap string (gmap string json))
    (table : list (string * json)) (w : world) : world * exc unit :=
  let date_label := substring 4 2 date_str ++ "/" ++ substring 6 2 date_str in
  let races := filter_races args races in
  let cushion_db := json_load_object table in
  match process_races jra_live cushion_db out_dir date_label w [] races with
  | (w, Raise e) => (w, Raise e)
  | (w, Ok results_summary) =>
      (emit (IndexWritten out_dir
               (Index.generate_index results_summary jra_live date_label))
            w,
       Ok ())
  end.

End with_scraper.

End Pipeline.

(* ================================================================== *)
(** ** Step 3: the past runs of a horse, [get_horse_results]
       (lines 183-233) *)
(* ================================================================== *)

Module History.

(** Lines 195-199. *)
Definition venue_short_map : list (string * string) :=
  [ ("東", "東京"); ("京", "京都"); ("中", "中山"); ("阪", "阪神");
    ("小", "小倉"); ("新", "新潟"); ("福", "福島"); ("函", "函館");
    ("札", "札幌"); ("中京", "中京") ].

(** Lines 217-220: the loop over the items of the map, left at the
    first key that is equal to [venue]. *)
Fixpoint expand_venue (items : list (string * string)) (venue : string)
  : string :=
  match items with
  | [] => venue
  | (short, full) :: items' =>
      if bool_decide (venue = short) then full
      else expand_venue items' venue
  end.

Definition normalize_venue (venue : string) : string :=
  expand_venue venue_short_map venue.

Section with_library.

(** What the code takes from the library: [str.isdigit]; [int], which
    raises [ValueError] on a string that is not a number ([None]
    here); [re.search(r'(芝|ダ|障)(\d+)', s)], which when it matches
    gives the surface and the digits after it, here with the number
    that [int] makes of the digits; and
    [re.sub(r'\d+', '', s).strip()]. *)
Variable isdigit : string → bool.
Variable int : string → option Z.
Variable search_surface_distance : string → option (string * Z).
Variable strip_digits : string → string.

(** The body of the loop for one row (lines 203-231), given the texts
    of its cells: the run to append, or [None] when the row is left
    out, by [continue] for a short row or by the [except] clause for
    any exception of the [try] block. *)
Definition parse_row (cells : list string) : option run :=
  if bool_decide (length cells < 15)%nat then None
  else
    let date := nth 0 cells "" in
    let venue_raw := nth 1 cells "" in
    let race_name := nth 4 cells "" in
    let result_text := nth 11 cells "" in
    result ← (if isdigit result_text then Some <$> int result_text
              else Some None);
    let dist_text := nth 14 cells "" in
    let sd_match := search_surface_distance dist_text in
    let surface := match sd_match with Some g => g.1 | None => "?" end in
    let distance := match sd_match with Some g => g.2 | None => 0 end in
    let venue := normalize_venue (strip_digits venue_raw) in
    Some {| date := date; venue := venue; surface := surface;
            distance := distance; race_name := race_name;
            result := result; cushion := JNull; moisture := JNull |}.

(** One turn of the loop: the row is appended or left out. *)
Definition add_row (results : list run) (cells : list string)
  : list run :=
  match parse_row cells with
  | Some r => (results ++ [r])%list
  | None => results
  end.

(** [get_horse_results], given what the parser finds on the page of
    the horse: the rows of the results table, each with the texts of
    its cells, or [None] when the page has no such table.  The first
    row is the header; [rows[1:max_races + 1]] are the rows read. *)
Definition get_horse_results (table : option (list (list string)))
    (max_races : nat) : list run :=
  match table with
  | None => []
  | Some rows => fold_left add_row (take max_races (drop 1 rows)) []
  end.

End with_library.

End History.

(* ================================================================== *)
(** ** A dict that is iterated: assignment keeps the place of a key *)
(* ================================================================== *)

Module OrderedDict.

(** [d[k] = v]: a key that is there keeps its place and gets the new
    value, a new key goes to the end. *)
Fixpoint dict_set {V : Type} (k : string) (v : V)
    (d : list (string * V)) : list (string * V) :=
  match d with
  | [] => [(k, v)]
  | (k', v') :: d' =>
      if decide (k' = k) then (k, v) :: d'
      else (k', v') :: dict_set k v d'
  end.

(** [d.get(k)] *)
Fixpoint dict_get {V : Type} (k : string) (d : list (string * V))
  : option V :=
  match d with
  | [] => None
  | (k', v') :: d' => if decide (k' = k) then Some v' else dict_get k d'
  end.

End OrderedDict.
Import OrderedDict.

(* ================================================================== *)
(** ** Step 2: the race list, [get_race_list] (lines 79-119) *)
(* ================================================================== *)

Module RaceList.

Section with_library.

(** From the library: [int]; [re.search(r'(芝|ダ|障)(\d+)m', text)],
    as for the past runs; and the group of
    [re.match(r'\d+R(.+?)[\d:]+', text)]. *)
Variable int : string → option Z.
Variable search_surface_distance : string → option (string * Z).
Variable match_race_name : string → option string.

(** Lines 93-117: the race of a link that was not seen before, from
    the race id of its address and its text.  [int(rid[10:12])] raises
    [ValueError] ([None] here) when the id is too short. *)
Definition race_of_link (rid text : string) : option Pipeline.race :=
  let venue_code := VenueCodec.venue_code_of rid in
  let venue := VenueCodec.decode venue_code in
  race_num ← int (substring 10 2 rid);
  let sd_match := search_surface_distance text in
  let surface := match sd_match with Some g => g.1 | None => "?" end in
  let distance := match sd_match with Some g => g.2 | None => 0 end in
  let race_name := default text (match_race_name text) in
  Some {| Pipeline.race_id := rid; Pipeline.venue := venue;
          Pipeline.race_num := race_num;
          Pipeline.race_name := race_name;
          Pipeline.surface := surface; Pipeline.distance := distance;
          Pipeline.text := text |}.

(** One turn of the loop of lines 90-117, on [seen] and [races]. *)
Definition add_link (st : gset string * list Pipeline.race)
    (link : string * string)
  : option (gset string * list Pipeline.race) :=
  let '(seen, races) := st in
  let '(rid, text) := link in
  if decide (rid ∈ seen) then Some (seen, races)
  else
    r ← race_of_link rid text;
    Some ({[rid]} ∪ seen, (races ++ [r])%list).

Fixpoint add_links (st : gset string * list Pipeline.race)
    (links : list (string * string))
  : option (gset string * list Pipeline.race) :=
  match links with
  | [] => Some st
  | link :: links' => st' ← add_link st link; add_links st' links'
  end.

(** [get_race_list], given the links of the page whose address has a
    race id, each with that id and its text; [None] when [int]
    raised. *)
Definition get_race_list (links : list (string * string))
  : option (list Pipeline.race) :=
  snd <$> add_links (∅, []) links.

End with_library.

End RaceList.

(* ================================================================== *)
(** ** Step 1: the measurements of the day, [fetch_jra_live]
       (lines 37-75) *)
(* ================================================================== *)

Module Live.

(** The first unit of a block of the cushion page, with the number that
    [float] makes of its text (lines 50-52). *)
Record cushion_unit : Type := {
  cushion_value : Q;
  time_cushion : string;
}.

(** The first unit of a block of the moisture page (lines 62-67): the
    turf and the dirt value, each [None] when its part is missing. *)
Record moisture_unit : Type := {
  turf_mg : option Q;
  dirt_mg : option Q;
  time_moisture : string;
}.

Definition float_or_None (x : option Q) : json :=
  match x with Some q => JFloat q | None => JNull end.

(** One block of the cushion page (lines 46-52): its title and its
    first unit, when it has one. *)
Definition add_cushion (result : gmap string (gmap string json))
    (div : string * option cushion_unit)
  : gmap string (gmap string json) :=
  let venue := div.1 in
  match div.2 with
  | Some u =>
      <[venue := {[ "cushion" := JFloat (cushion_value u);
                    "time_cushion" := JStr (time_cushion u) ]}]> result
  | None => result
  end.

(** One block of the moisture page (lines 58-73). *)
Definition add_moisture (result : gmap string (gmap string json))
    (div : string * option moisture_unit)
  : gmap string (gmap string json) :=
  let venue := div.1 in
  match div.2 with
  | Some u =>
      let turf_mg := float_or_None (turf_mg u) in
      let dirt_mg := float_or_None (dirt_mg u) in
      match result !! venue with
      | Some data =>
          <[venue := <["time_moisture" := JStr (time_moisture u)]>
                       (<["dirt_moisture" := dirt_mg]>
                          (<["turf_moisture" := turf_mg]> data))]> result
      | None =>
          <[venue := {[ "turf_moisture" := turf_mg;
                        "dirt_moisture" := dirt_mg;
                        "time_moisture" := JStr (time_moisture u) ]}]>
            result
      end
  | None => result
  end.

(** [fetch_jra_live], given the blocks that the parser finds on the two
    pages. *)
Definition fetch_jra_live (cushion_divs : list (string * option cushion_unit))
    (moisture_divs : list (string * option moisture_unit))
  : gmap string (gmap string json) :=
  fold_left add_moisture moisture_divs
    (fold_left add_cushion cushion_divs ∅).

End Live.

(* ================================================================== *)
(** ** Step 3: the entries of a race, [scrape_race_data]
       (lines 123-180) *)
(* ================================================================== *)

Module Scrape.

(** What the parser finds on the entry page of a race: the text of the
    race name and of the race data, when they are there; and the rows of
    the entry table, when it is there, each with the name and the id of
    the horse of its link, or [None] for a row without a link. *)
Record entry_page : Type := {
  race_name_tag : option string;
  race_data_tag : option string;
  table : option (list (option (string * string)));
}.

Section with_library.

Variable isdigit : string → bool.
Variable int : string → option Z.
Variable search_surface_distance : string → option (string * Z).
Variable search_surface_distance_m : string → option (string * Z).
Variable strip_digits : string → string.

(** The pages: the entry page of a race id, and the rows of the
    results table on the page of a horse id. *)
Variable entry_page_of : string → entry_page.
Variable results_table_of : string → option (list (list string)).

(** Lines 164-169: [all_horses[h['name']] = results]. *)
Definition add_horse (all_horses : list (string * list run))
    (h : string * string) : list (string * list run) :=
  let results :=
    History.get_horse_results isdigit int search_surface_distance
      strip_digits (results_table_of h.2) 10 in
  dict_set h.1 results all_horses.

Definition scrape_race_data (race_id : string) : option race_data :=
  let soup := entry_page_of race_id in
  let race_name := default "" (race_name_tag soup) in
  let race_data_text := default "" (race_data_tag soup) in
  let sd_match := search_surface_distance_m race_data_text in
  let surface := match sd_match with Some g => g.1 | None => "?" end in
  let distance := match sd_match with Some g => g.2 | None => 0 end in
  let venue_code := VenueCodec.venue_code_of race_id in
  let venue := VenueCodec.decode venue_code in
  match table soup with
  | None => None
  | Some rows =>
      let horses := omap id rows in
      let all_horses := fold_left add_horse horses [] in
      Some {| info := {| ri_race_id := race_id;
                         ri_race_name := race_name;
                         ri_venue := venue;
                         ri_surface := surface;
                         ri_distance := distance |};
              horses := all_horses |}
  end.

End with_library.

End Scrape.

(* ================================================================== *)
(** ** The upload, [deploy_to_github] (lines 785-857) *)
(* ================================================================== *)

Module Deploy.

(** [s.endswith(suffix)] *)
Definition endswith (s suffix : string) : bool :=
  let n := String.length s in
  let m := String.length suffix in
  (m <=? n)%nat && String.eqb (substring (n - m) m s) suffix.

(** The order of [sorted(html_files)]: strings by code point. *)
Definition name_le (a b : string) : Prop := String.leb a b = true.

#[global] Instance name_le_dec (a b : string) : Decision (name_le a b).
Proof. unfold name_le. apply _. Defined.

Definition sorted (l : list string) : list string := merge_sort name_le l.

(** Whether [repo.split("/")] has a second part. *)
Fixpoint has_slash (s : string) : bool :=
  match s with
  | EmptyString => false
  | String c s' => Ascii.eqb c "/"%char || has_slash s'
  end.

(** What is sent to the host: the listing of what is there, the upload
    of a file under its name, with the digest of the file it replaces
    when there is one, and the removal of a file. *)
Inductive request : Type :=
  | ListContents (repo token : string)
  | Upload (fname message content : string) (sha : option string)
  | Remove (fname message sha : string).

(** The exceptions of [deploy_to_github]: a key that the configuration
    lacks, and the [IndexError] of [repo.split("/")[1]]. *)
Inductive raised : Type :=
  | MissingKey (k : string)
  | IndexError.

Section with_files.

(** The output directory: the names that [os.listdir] gives, and the
    content of each file in base 64. *)
Variable listdir : list string.
Variable read_b64 : string → string.

(** Lines 813-816. *)
Definition existing_of (listing : option (list (string * string)))
  : list (string * string) :=
  match listing with
  | Some items => fold_left (λ d item, dict_set item.1 item.2 d) items []
  | None => []
  end.

(** Lines 819-843. *)
Definition upload (date_str : string) (existing : list (string * string))
    (fname : string) : request :=
  Upload fname ("Update " ++ fname ++ " (" ++ date_str ++ ")")
    (read_b64 fname) (dict_get fname existing).

(** Lines 846-853. *)
Definition removals (existing : list (string * string))
    (html_files : list string) : list request :=
  omap (λ item : string * string,
          let '(fname, sha) := item in
          if endswith fname ".html"
             && negb (bool_decide (fname ∈ html_files))
          then Some (Remove fname ("Remove old file " ++ fname) sha)
          else None) existing.

(** [deploy_to_github]: the requests it sends, in order, and the
    exception it ends with, if any.  [config] is the content of the
    configuration file, [None] when there is no such file; [listing]
    is what the host answers to the first request, the names and
    digests of the files there, [None] when the answer is not a
    success.  The answers to the other requests are printed and
    nothing else.  The last line (855) makes the address of the site
    from the two parts of [repo]. *)
Definition deploy_to_github (config : option (gmap string string))
    (listing : option (list (string * string))) (date_str : string)
  : list request * option raised :=
  match config with
  | None => ([], None)
  | Some config =>
      match config !! "github_token" with
      | None => ([], Some (MissingKey "github_token"))
      | Some token =>
          match config !! "repo" with
          | None => ([], Some (MissingKey "repo"))
          | Some repo =>
              let existing := existing_of listing in
              let html_files :=
                filter (λ f, endswith f ".html" = true) listdir in
              (ListContents repo token
               :: (upload date_str existing <$> sorted html_files)
               ++ removals existing html_files,
               if has_slash repo then None else Some IndexError)%list
          end
      end
  end.

End with_files.

End Deploy.

(* ================================================================== *)
(** ** Sample data *)
(* ================================================================== *)

Module Samples.

Definition tokyo_entry : json :=
  JObj (list_to_map [ ("cushion", JFloat 9.8); ("turf_goal", JFloat 11.2);
                      ("dirt_goal", JFloat 4.5) ]).

(** An entry whose dirt moisture was not measured. *)
Definition tokyo_entry_no_dirt : json :=
  JObj (list_to_map [ ("cushion", JFloat 9.8); ("turf_goal", JFloat 11.2);
                      ("dirt_goal", JNull) ]).

(** An entry without the [cushion] field. *)
Definition tokyo_entry_no_cushion : json :=
  JObj (list_to_map [ ("turf_goal", JFloat 11.2);
                      ("dirt_goal", JFloat 4.5) ]).

Definition table : list (string * json) :=
  [ ("20260215_東京", tokyo_entry) ].

Definition table_no_dirt : list (string * json) :=
  [ ("20260215_東京", tokyo_entry_no_dirt) ].

Definition table_no_cushion : list (string * json) :=
  [ ("20260215_東京", tokyo_entry_no_cushion) ].

Definition turf_run : run :=
  {| date := "20260215"; venue := "東京"; surface := "芝";
     distance := 1600; race_name := "東京新聞杯"; result := Some 2;
     cushion := JNull; moisture := JNull |}.

Definition dirt_run : run :=
  {| date := "20260215"; venue := "東京"; surface := "ダ";
     distance := 1600; race_name := "東京新聞杯"; result := Some 2;
     cushion := JNull; moisture := JNull |}.

(** A run on a day the table has nothing for. *)
Definition old_run : run :=
  {| date := "20250105"; venue := "中山"; surface := "芝";
     distance := 2000; race_name := "中山金杯"; result := None;
     cushion := JNull; moisture := JNull |}.

Definition sample_race : race_data :=
  {| info := {| ri_race_id := "202605010811"; ri_race_name := "安田記念";
                ri_venue := "東京"; ri_surface := "芝";
                ri_distance := 1600 |};
     horses := [ ("A", [turf_run; dirt_run; old_run]); ("B", []) ] |}.

(** The same race as [get_race_list] lists it, and an obstacle race. *)
Definition listed_race : Pipeline.race :=
  {| Pipeline.race_id := "202605010811"; Pipeline.venue := "東京";
     Pipeline.race_num := 11; Pipeline.race_name := "安田記念";
     Pipeline.surface := "芝"; Pipeline.distance := 1600;
     Pipeline.text := "11R安田記念15:40芝1600m" |}.

Definition obstacle_race : Pipeline.race :=
  {| Pipeline.race_id := "202605010804"; Pipeline.venue := "東京";
     Pipeline.race_num := 4; Pipeline.race_name := "障害オープン";
     Pipeline.surface := "障"; Pipeline.distance := 3000;
     Pipeline.text := "4R障害オープン11:40障3000m" |}.

(** A cache directory that holds the race, and a scraper that finds
    nothing. *)
Definition cached : Pipeline.world :=
  {| Pipeline.cache := {[ "202605010811" := sample_race ]};
     Pipeline.trace := [] |}.

Definition no_scrape (rid : string) : option race_data := None.

Definition no_arguments : Pipeline.arguments :=
  {| Pipeline.arg_venue := None; Pipeline.arg_race := None |}.

End Samples.

(* ================================================================== *)
(** ** Sample pages *)
(* ================================================================== *)

Module Samples2.

(** [int] on a text of ASCII digits. *)
Fixpoint digits_value (s : string) (acc : Z) : option Z :=
  match s with
  | EmptyString => Some acc
  | String c s' =>
      let n := Z.of_nat (nat_of_ascii c) in
      if bool_decide (48 ≤ n ≤ 57) then digits_value s' (10 * acc + (n - 48))
      else None
  end.

Definition sample_int (s : string) : option Z :=
  if bool_decide (s = "") then None else digits_value s 0.

Definition sample_isdigit (s : string) : bool :=
  bool_decide (is_Some (sample_int s)).

(** A search that finds nothing, and a cleaning that leaves the text. *)
Definition no_match (s : string) : option (string * Z) := None.
Definition no_name (s : string) : option string := None.
Definition as_it_is (s : string) : string := s.

(** The links of a race list page: the second race is linked twice. *)
Definition sample_links : list (string * string) :=
  [ ("202605010811", "11R安田記念15:40芝1600m");
    ("202605010804", "4R障害オープン11:40障3000m");
    ("202605010804", "4R") ].

(** The results table of a horse: the header, a row that is too short,
    and a row of fifteen cells. *)
Definition sample_results : list (list string) :=
  [ ["日付"; "開催"];
    ["2026/02/15"; "1東京6"];
    ["2026/02/15"; "東"; ""; ""; "東京新聞杯"; ""; ""; ""; ""; ""; "";
     "2"; ""; ""; "芝1600"] ].

(** An entry page with two rows for the same horse name and a row
    without a link. *)
Definition sample_entry_page : Scrape.entry_page :=
  {| Scrape.race_name_tag := Some "安田記念";
     Scrape.race_data_tag := None;
     Scrape.table := Some [ Some ("A", "2020100001"); None;
                            Some ("B", "2020100002");
                            Some ("A", "2020100003") ] |}.

Definition sample_scrape : string → option race_data :=
  Scrape.scrape_race_data sample_isdigit sample_int no_match no_match
    as_it_is (λ _, sample_entry_page) (λ _, Some sample_results).

(** The two pages of the measurements: 東京 on both, 京都 on the
    moisture page only and without its turf part. *)
Definition sample_cushion_divs : list (string * option Live.cushion_unit) :=
  [ ("東京", Some {| Live.cushion_value := 9.8%Q;
                     Live.time_cushion := "7:30" |});
    ("中山", None) ].

Definition sample_moisture_divs
  : list (string * option Live.moisture_unit) :=
  [ ("東京", Some {| Live.turf_mg := Some 11.2%Q; Live.dirt_mg := Some 4.5%Q;
                     Live.time_moisture := "7:30" |});
    ("京都", Some {| Live.turf_mg := None; Live.dirt_mg := Some 3.9%Q;
                     Live.time_moisture := "7:30" |}) ].

(** An output directory, and what the host lists. *)
Definition sample_dir : list string :=
  [ "scatter_b.html"; "notes.txt"; "index.html"; "scatter_a.html" ].

Definition sample_listing : list (string * string) :=
  [ ("index.html", "sha1"); ("old.html", "sha2"); ("README.md", "sha3") ].

Definition sample_config : gmap string string :=
  {[ "github_token" := "t"; "repo" := "user/site" ]}.

Definition sample_content (fname : string) : string := "b64:" ++ fname.

End Samples2.

(* ================================================================== *)
(** ** Vocabulary of the properties *)
(* ================================================================== *)

Module Vocabulary.
Import Renderer.

#[global] Instance json_is_null_dec (v : json) : Decision (v = JNull).
Proof. destruct v; (by left) || (by right). Defined.

(** A run that the join gave both values. *)
Definition joined (r : run) : Prop :=
  cushion r ≠ JNull ∧ moisture r ≠ JNull.

#[global] Instance joined_dec (r : run) : Decision (joined r).
Proof. unfold joined. apply _. Defined.

(** The two loops of lines 269-294, as a map and a filter. *)
Definition embedded_horse (surface : string) (distance : Z)
    (h : string * list run) : js_horse :=
  {| name := h.1;
     races := js_of_run surface distance <$> filter joined h.2 |}.

(** The moisture field that lines 249-252 read for a run. *)
Definition selected_field (r : run) : string :=
  if bool_decide (surface r = "ダ") || bool_decide (surface r = "ダート")
  then "dirt_goal" else "turf_goal".

(** The value of a field of a table entry, null when the entry has no
    such field. *)
Definition field_of (entry : json) (k : string) : json :=
  match entry with
  | JObj m => default JNull (m !! k)
  | _ => JNull
  end.

(** A table entry that is a dict with a [cushion] key. *)
Definition has_cushion (entry : json) : Prop :=
  ∃ m c, entry = JObj m ∧ m !! "cushion" = Some c.

(** Every table entry that some run of the race data looks up has a
    cushion. *)
Definition hits_have_cushion (cushion_db : gmap string json)
    (rd : race_data) : Prop :=
  Forall
    (λ h : string * list run,
       Forall (λ r, ∀ entry, cushion_db !! Join.key_of r = Some entry →
                             has_cushion entry) h.2)
    (horses rd).

(** The races of a venue among the summaries, in the order they come
    in. *)
Definition entries_of (venue : string) (rs : list Index.summary)
  : list Index.entry :=
  omap (λ s : Index.summary,
          let '(v, rnum, rname, total, pts) := s in
          if decide (v = venue) then Some (rnum, rname, total, pts)
          else None) rs.

(** An event of the run that belongs to the race [r]: a scrape or a
    cache file for its id, or its page. *)
Definition event_of_race (r : Pipeline.race) (e : Pipeline.event) : Prop :=
  match e with
  | Pipeline.Scraped rid => rid = Pipeline.race_id r
  | Pipeline.CacheWritten rid _ => rid = Pipeline.race_id r
  | Pipeline.PageWritten _ file _ =>
      file = Index.scatter_file_name (Pipeline.venue r)
               (Pipeline.race_num r) (Pipeline.race_name r)
  | Pipeline.IndexWritten _ _ => False
  end.

(** A summary, and a link of the index, that belong to the race [r]. *)
Definition summary_of_race (r : Pipeline.race) (s : Index.summary) : Prop :=
  ∃ total pts,
    s = (Pipeline.venue r, Pipeline.race_num r, Pipeline.race_name r,
         total, pts).

Definition link_of_race (r : Pipeline.race) (venue : string)
    (l : Index.link) : Prop :=
  venue = Pipeline.venue r ∧
  Index.l_rnum l = Pipeline.race_num r ∧
  Index.l_rname l = Pipeline.race_name r ∧
  Index.href l = Index.scatter_file_name (Pipeline.venue r)
                   (Pipeline.race_num r) (Pipeline.race_name r).

(** A race of the list that is not an obstacle race. *)
Definition flat_race (races : list Pipeline.race) (r : Pipeline.race)
  : Prop :=
  r ∈ races ∧ Pipeline.surface r ≠ "障".

(** An event that only has to do with races of the list that are not
    obstacle races. *)
Definition event_of_flat_races (races : list Pipeline.race)
    (e : Pipeline.event) : Prop :=
  match e with
  | Pipeline.IndexWritten _ ix =>
      Forall
        (λ sec,
           Forall (λ l, ∃ r, flat_race races r ∧
                             link_of_race r (Index.sec_venue sec) l)
             (Index.sec_links sec))
        (Index.sections ix)
  | _ => ∃ r, flat_race races r ∧ event_of_race r e
  end.

(** A three-way comparison that decides a total order. *)
Class Comparison {A : Type} (cmp : A → A → comparison) : Prop := {
  cmp_eq x y : cmp x y = Eq → x = y;
  cmp_refl x : cmp x x = Eq;
  cmp_antisym x y : cmp y x = CompOpp (cmp x y);
  cmp_lt_trans x y z : cmp x y = Lt → cmp y z = Lt → cmp x z = Lt;
}.

End Vocabulary.
Import Vocabulary.

(* ================================================================== *)
(** ** Further vocabulary *)
(* ================================================================== *)

Module Vocabulary2.

(** A run for which the table has both values: its key is in the table,
    and neither the cushion of the entry nor the moisture field that the
    surface of the run selects is null. *)
Definition measured (cushion_db : gmap string json) (r : run) : Prop :=
  match cushion_db !! Join.key_of r with
  | Some entry =>
      field_of entry "cushion" ≠ JNull ∧
      field_of entry (selected_field r) ≠ JNull
  | None => False
  end.

#[global] Instance measured_dec cushion_db r :
  Decision (measured cushion_db r).
Proof.
  unfold measured. destruct (cushion_db !! Join.key_of r); apply _.
Defined.

(** All the runs of a race, horse after horse. *)
Definition all_runs (rd : race_data) : list run :=
  mjoin (snd <$> horses rd).

(** The characters of a string. *)
Definition chars (s : string) : list ascii := list_ascii_of_string s.

Definition has_char (c : ascii) (s : string) : Prop := c ∈ chars s.

(** The race ids that were scraped, in the order of the scrapes. *)
Definition scraped_ids (t : list Pipeline.event) : list string :=
  omap (λ e, match e with
             | Pipeline.Scraped rid => Some rid
             | _ => None
             end) t.

Definition is_index (e : Pipeline.event) : Prop :=
  match e with Pipeline.IndexWritten _ _ => True | _ => False end.

Definition is_fetch (e : Pipeline.event) : Prop :=
  match e with
  | Pipeline.Scraped _ | Pipeline.CacheWritten _ _ => True
  | _ => False
  end.

(** The files of the pages that were written, in the order they were
    written. *)
Definition written_files (t : list Pipeline.event) : list string :=
  omap (λ e, match e with
             | Pipeline.PageWritten _ file _ => Some file
             | _ => None
             end) t.

(** The page file of a race of the list. *)
Definition page_file (r : Pipeline.race) : string :=
  Index.scatter_file_name (Pipeline.venue r) (Pipeline.race_num r)
    (Pipeline.race_name r).

(** A race whose data can be had: it is in the cache, or the scraper
    finds it. *)
Definition available (scrape : string → option race_data)
    (w : Pipeline.world) (r : Pipeline.race) : Prop :=
  is_Some (Pipeline.cache w !! Pipeline.race_id r) ∨
  is_Some (scrape (Pipeline.race_id r)).

(** The numbers of horses and of points of a page. *)
Definition page_total (p : Renderer.page) : nat :=
  length (Renderer.HORSES p).

Definition page_pts (p : Renderer.page) : nat :=
  sum_list ((λ jh, length (Renderer.races jh)) <$> Renderer.HORSES p).

(** A summary that has its page among the events. *)
Definition has_page (out_dir : string) (events : list Pipeline.event)
    (s : Index.summary) : Prop :=
  ∃ p, Pipeline.PageWritten out_dir
         (Index.scatter_file_name s.1.1.1.1 s.1.1.1.2 s.1.1.2) p ∈ events ∧
       s.1.2 = page_total p ∧ s.2 = page_pts p.

(** The abbreviations that [get_horse_results] writes out in full. *)
Definition abbreviations : list string := History.venue_short_map.*1.

(** The unit of the last block of a page that has the title [venue] and
    a unit. *)
Fixpoint last_unit {U : Type} (venue : string)
    (divs : list (string * option U)) : option U :=
  match divs with
  | [] => None
  | div :: divs' =>
      match last_unit venue divs' with
      | Some u => Some u
      | None => if decide (div.1 = venue) then div.2 else None
      end
  end.

(** What the measurements of the day have under a key for a venue. *)
Definition live_value (jra_live : gmap string (gmap string json))
    (venue key : string) : option json :=
  default ∅ (jra_live !! venue) !! key.

(** A name that ends in [.html]. *)
Definition is_html (fname : string) : Prop :=
  Deploy.endswith fname ".html" = true.

(** The uploads among the requests, each as the name and the digest
    that go with it, and the removals likewise. *)
Definition uploaded (reqs : list Deploy.request)
  : list (string * option string) :=
  omap (λ r, match r with
             | Deploy.Upload fname _ _ sha => Some (fname, sha)
             | _ => None
             end) reqs.

Definition removed (reqs : list Deploy.request) : list (string * string) :=
  omap (λ r, match r with
             | Deploy.Remove fname _ sha => Some (fname, sha)
             | _ => None
             end) reqs.

(** The digest that the listing of the host gives last under a name. *)
Definition listed_digest (listing : option (list (string * string)))
    (fname : string) : option string :=
  snd <$> last (filter (λ item, item.1 = fname) (default [] listing)).

End Vocabulary2.
Import Vocabulary2.

(* ================================================================== *)
(** * Properties *)
(* ================================================================== *)

Local Open Scope list_scope.

(** ** Exceptions and loops *)

Section loops.
Context {A B : Type}.

Lemma for_each_Ok (f : A → exc B) (l : list A) (k : list B) :
  for_each f l = Ok k ↔ Forall2 (λ x y, f x = Ok y) l k.
Proof.
  revert k. induction l as [|x l IH]; intros k; simpl.
  - split.
    + intros [= <-]. constructor.
    + by inversion 1.
  - destruct (f x) as [y|e] eqn:Hx; simpl.
    + destruct (for_each f l) as [ys|e] eqn:Hl; simpl.
      * split.
        -- intros [= <-]. constructor; [done|]. by apply IH.
        -- inversion 1 as [|? y' ? ys' Hy Hys]; subst.
           rewrite Hx in Hy. injection Hy as <-.
           apply IH in Hys. by injection Hys as <-.
      * split; [done|].
        inversion 1 as [|? ? ? ys' _ Hys]; subst.
        by apply IH in Hys.
    + split; [done|].
      inversion 1 as [|? y' ? ? Hy _]; subst. by rewrite Hx in Hy.
Qed.

(** The loop ends without an exception exactly when no turn raises. *)
Lemma for_each_is_Ok (f : A → exc B) (l : list A) :
  (∃ k, for_each f l = Ok k) ↔ Forall (λ x, ∃ y, f x = Ok y) l.
Proof.
  induction l as [|x l IH]; simpl.
  - split; [constructor | by eexists].
  - destruct (f x) as [y|e] eqn:Hx; simpl.
    + destruct (for_each f l) as [ys|e] eqn:Hl; simpl.
      * split; [|by eexists].
        intros _. constructor; [by eexists|]. apply IH. by eexists.
      * split; [by intros [? ?]|].
        inversion 1 as [|? ? _ Hl']; subst.
        apply IH in Hl' as [? ?]. done.
    + split; [by intros [? ?]|].
      inversion 1 as [|? ? [? Hy] _]; subst. by rewrite Hx in Hy.
Qed.

(** A loop that appends to a list, with [continue] for the elements
    that fail the test. *)
Lemma fold_left_append_filter (P : A → Prop) `{!∀ x, Decision (P x)}
    (g : A → B) (step : list B → A → list B) (l : list A) (acc : list B) :
  (∀ acc x, P x → step acc x = acc ++ [g x]) →
  (∀ acc x, ¬ P x → step acc x = acc) →
  fold_left step l acc = acc ++ (g <$> filter P l).
Proof.
  intros Hyes Hno. revert acc.
  induction l as [|x l IH]; intros acc; simpl.
  - by rewrite app_nil_r.
  - rewrite IH, filter_cons. destruct (decide (P x)) as [HP|HP].
    + rewrite (Hyes _ _ HP). simpl. by rewrite <- app_assoc.
    + by rewrite (Hno _ _ HP).
Qed.

Lemma fold_left_append_map (g : A → B) (step : list B → A → list B)
    (l : list A) (acc : list B) :
  (∀ acc x, step acc x = acc ++ [g x]) →
  fold_left step l acc = acc ++ (g <$> l).
Proof.
  intros Hstep. revert acc.
  induction l as [|x l IH]; intros acc; simpl.
  - by rewrite app_nil_r.
  - rewrite IH, Hstep. by rewrite <- app_assoc.
Qed.

End loops.

Lemma is_None_true (v : json) : is_None v = true ↔ v = JNull.
Proof. by destruct v. Qed.

Lemma is_None_false (v : json) : is_None v = false ↔ v ≠ JNull.
Proof. by destruct v. Qed.

(* ------------------------------------------------------------------ *)
(** ** The venue codec *)
(* ------------------------------------------------------------------ *)

Section venue_codec.
Import VenueCodec.

Example decode_tokyo : decode (venue_code_of "202605010811") = "東京".
Proof. reflexivity. Qed.

Example decode_short_id : decode (venue_code_of "2026") = "?".
Proof. reflexivity. Qed.

(** C7. Venue decoding is total: [decode] is a function on all strings, so
  it returns for every code; the code "05" gives "東京", the mapping has
  ten entries, a code in the mapping gives one of the ten venue names,
  and every other code gives the sentinel "?". *)
Theorem venue_decode_total :
decode "05" = "東京" ∧
size VENUE_CODES = 10%nat ∧
∀ code : string,
  (is_Some (VENUE_CODES !! code) ∧ decode code ∈ canonical_venues) ∨
  (VENUE_CODES !! code = None ∧ decode code = "?").
Proof.
split; [reflexivity|]. split; [by vm_compute|].
intros code. unfold decode.
destruct (VENUE_CODES !! code) as [v|] eqn:Hv; [left|right]; [|done].
split; [by eexists|]. simpl.
unfold VENUE_CODES in Hv.
apply elem_of_list_to_map_2 in Hv.
rewrite !elem_of_cons, elem_of_nil in Hv.
destruct_or!; try done; simplify_eq; by apply (bool_decide_unpack _).
Qed.

End venue_codec.

(* ------------------------------------------------------------------ *)
(** ** The renderer *)
(* ------------------------------------------------------------------ *)

Section renderer.
Import Renderer.

Lemma render_run_joined surface distance acc r :
  joined r → render_run surface distance acc r
             = acc ++ [js_of_run surface distance r].
Proof.
  intros [Hc Hm]. unfold render_run.
  apply is_None_false in Hc, Hm. by rewrite Hc, Hm.
Qed.

Lemma render_run_skipped surface distance acc r :
  ¬ joined r → render_run surface distance acc r = acc.
Proof.
  intros Hj. unfold render_run.
  destruct (is_None (cushion r)) eqn:Hc; [done|].
  destruct (is_None (moisture r)) eqn:Hm; [done|].
  apply is_None_false in Hc, Hm. by destruct Hj.
Qed.

Lemma js_horses_of_spec (rd : race_data) :
  js_horses_of rd
  = embedded_horse (ri_surface (info rd)) (ri_distance (info rd))
      <$> horses rd.
Proof.
  unfold js_horses_of.
  rewrite (fold_left_append_map
             (embedded_horse (ri_surface (info rd)) (ri_distance (info rd)))).
  - done.
  - intros acc h. unfold render_horse, embedded_horse.
    rewrite (fold_left_append_filter joined
               (js_of_run (ri_surface (info rd)) (ri_distance (info rd)))).
    + done.
    + intros. by apply render_run_joined.
    + intros. by apply render_run_skipped.
Qed.

Lemma classify_cases (r : run) (surface : string) (distance : Z) :
  (Data.surface r ≠ surface →
     classify r surface distance = diff_surface) ∧
  (Data.surface r = surface → Data.distance r = distance →
     classify r surface distance = same_dist) ∧
  (Data.surface r = surface → Data.distance r ≠ distance →
     classify r surface distance = diff_dist).
Proof.
  unfold classify. repeat split; intros;
    repeat case_bool_decide; simpl; congruence.
Qed.

End renderer.

Section renderer_claims.
Import Renderer.

Lemma HORSES_spec rd tc tm dl rn :
  HORSES (generate_scatter_html rd tc tm dl rn).1
  = embedded_horse (ri_surface (info rd)) (ri_distance (info rd))
      <$> horses rd.
Proof. simpl. apply js_horses_of_spec. Qed.

Lemma js_of_run_joined surface distance (r : run) (l : list run) :
  js_of_run surface distance r ∈ js_of_run surface distance <$> filter joined l
  → joined r.
Proof.
  intros (r' & Heq & Hin)%list_elem_of_fmap.
  apply list_elem_of_filter in Hin as [[Hc Hm] _].
  pose proof (f_equal js_cushion Heq) as Ec.
  pose proof (f_equal js_moisture Heq) as Em.
  simpl in Ec, Em. unfold joined. by rewrite Ec, Em.
Qed.

(** C4. Classification in the page: every run that has both a cushion and
  a moisture value gets one [cat], a value of the three-valued type
  [category], and the surface decides before the distance does: a run on
  another surface than the race is [diff_surface] whatever its distance;
  a run on the same surface is [same_dist] when the distances are equal
  and [diff_dist] when they are not. *)
Theorem classifier_precedence (rd : race_data) (tc tm : json)
  (dl : string) (rn : Z) :
let surface := ri_surface (info rd) in
let distance := ri_distance (info rd) in
Forall2
  (λ h jh,
     Forall2
       (λ r j,
          (cat j = same_dist ∨ cat j = diff_dist ∨ cat j = diff_surface) ∧
          (Data.surface r ≠ surface → cat j = diff_surface) ∧
          (Data.surface r = surface → Data.distance r = distance →
             cat j = same_dist) ∧
          (Data.surface r = surface → Data.distance r ≠ distance →
             cat j = diff_dist))
       (filter joined h.2) (races jh))
  (horses rd) (HORSES (generate_scatter_html rd tc tm dl rn).1).
Proof.
intros surface distance. rewrite HORSES_spec.
apply Forall2_fmap_r, Forall_Forall2_diag, Forall_forall.
intros h _. simpl.
apply Forall2_fmap_r, Forall_Forall2_diag, Forall_forall.
intros r _. simpl. split.
- destruct (classify r _ _); auto.
- apply classify_cases.
Qed.

(** C5. The page holds exactly the joined runs: for each horse, in the
  order of the race data, the embedded runs are those of its runs whose
  cushion and moisture are both not null, and no other: a run of the
  horse is in the page if and only if both are set, and every embedded
  run has both. *)
Theorem renderer_exclusion (rd : race_data) (tc tm : json)
  (dl : string) (rn : Z) :
let surface := ri_surface (info rd) in
let distance := ri_distance (info rd) in
Forall2
  (λ h jh,
     name jh = h.1 ∧
     races jh = (js_of_run surface distance <$> filter joined h.2) ∧
     (∀ r, r ∈ h.2 →
           js_of_run surface distance r ∈ races jh ↔ joined r) ∧
     Forall (λ j, js_cushion j ≠ JNull ∧ js_moisture j ≠ JNull) (races jh))
  (horses rd) (HORSES (generate_scatter_html rd tc tm dl rn).1).
Proof.
intros surface distance. rewrite HORSES_spec.
apply Forall2_fmap_r, Forall_Forall2_diag, Forall_forall.
intros h _. simpl. split; [done|]. split; [done|]. split.
- intros r Hr. split; [apply js_of_run_joined|].
  intros Hj. apply list_elem_of_fmap. exists r. split; [done|].
  by apply list_elem_of_filter.
- apply Forall_fmap, Forall_forall. intros r Hr.
  by apply list_elem_of_filter in Hr as [? _].
Qed.

(** C6. The embedded data depends on the race data and the target point
  only: two calls on the same race data and target give the same
  [HORSES], [TX], [TY] and [TDIST], whatever the date label and the race
  number of each call.  The horses come in the order of the race data,
  and the runs of each horse in the order they have there. *)
Theorem renderer_deterministic (rd : race_data) (tc tm : json)
  (dl1 dl2 : string) (rn1 rn2 : Z) :
let p1 := (generate_scatter_html rd tc tm dl1 rn1).1 in
let p2 := (generate_scatter_html rd tc tm dl2 rn2).1 in
(HORSES p1 = HORSES p2 ∧ TX p1 = TX p2 ∧ TY p1 = TY p2 ∧
 TDIST p1 = TDIST p2) ∧
name <$> HORSES p1 = fst <$> horses rd ∧
Forall2
  (λ h jh,
     ∃ kept, kept `sublist_of` h.2 ∧
       races jh = (js_of_run (ri_surface (info rd))
                             (ri_distance (info rd)) <$> kept))
  (horses rd) (HORSES p1).
Proof.
intros p1 p2. split; [done|]. subst p1 p2.
rewrite HORSES_spec. split.
- rewrite <- list_fmap_compose. by apply list_fmap_ext.
- apply Forall2_fmap_r, Forall_Forall2_diag, Forall_forall.
  intros h _. exists (filter joined h.2). split; [|done].
  apply sublist_filter.
Qed.

End renderer_claims.

(* ------------------------------------------------------------------ *)
(** ** The join *)
(* ------------------------------------------------------------------ *)

Section join.
Import Join.

Lemma link_run_miss (db : gmap string json) (r : run) :
  db !! key_of r = None →
  link_run db r = Ok (set_moisture JNull (set_cushion JNull r)).
Proof. intros H. unfold link_run. by rewrite H. Qed.

Lemma link_run_hit (db : gmap string json) (r : run) m c :
  db !! key_of r = Some (JObj m) → m !! "cushion" = Some c →
  link_run db r
  = Ok (set_moisture (field_of (JObj m) (selected_field r))
          (set_cushion c r)).
Proof.
  intros H Hc. unfold link_run, selected_field. rewrite H. simpl.
  rewrite Hc. simpl.
  by destruct (bool_decide (surface r = "ダ")
               || bool_decide (surface r = "ダート")).
Qed.

Lemma link_run_no_cushion (db : gmap string json) (r : run) m :
  db !! key_of r = Some (JObj m) → m !! "cushion" = None →
  link_run db r = Raise (KeyError "cushion").
Proof. intros H Hc. unfold link_run. rewrite H. simpl. by rewrite Hc. Qed.

Lemma link_run_not_dict (db : gmap string json) (r : run) entry :
  db !! key_of r = Some entry → (∀ m, entry ≠ JObj m) →
  link_run db r = Raise TypeError.
Proof.
  intros H Hm. unfold link_run. rewrite H.
  destruct entry; try done. by destruct (Hm m).
Qed.

(** What a run looks like after the join, when the join went through. *)
Lemma link_run_Ok (db : gmap string json) (r r' : run) :
  link_run db r = Ok r' →
  match db !! key_of r with
  | Some entry =>
      has_cushion entry ∧
      r' = set_moisture (field_of entry (selected_field r))
             (set_cushion (field_of entry "cushion") r)
  | None => r' = set_moisture JNull (set_cushion JNull r)
  end.
Proof.
  intros H. destruct (db !! key_of r) as [entry|] eqn:Hk.
  - destruct entry as [| | | | | |m];
      try (rewrite (link_run_not_dict db r _ Hk) in H; done).
    destruct (m !! "cushion") as [c|] eqn:Hc.
    + rewrite (link_run_hit db r m c Hk Hc) in H. injection H as <-.
      split; [by exists m, c|]. simpl. by rewrite Hc.
    + by rewrite (link_run_no_cushion db r m Hk Hc) in H.
  - rewrite (link_run_miss db r Hk) in H. by injection H as <-.
Qed.

Lemma link_run_is_Ok (db : gmap string json) (r : run) :
  (∃ r', link_run db r = Ok r') ↔
  (∀ entry, db !! key_of r = Some entry → has_cushion entry).
Proof.
  split.
  - intros [r' H%link_run_Ok] entry Hk. rewrite Hk in H. by destruct H.
  - intros H. destruct (db !! key_of r) as [entry|] eqn:Hk.
    + destruct (H entry eq_refl) as (m & c & -> & Hc).
      eexists. by apply link_run_hit.
    + eexists. by apply link_run_miss.
Qed.

Lemma link_horse_Ok (db : gmap string json) (h h' : string * list run) :
  link_horse db h = Ok h' ↔
  h'.1 = h.1 ∧ Forall2 (λ r r', link_run db r = Ok r') h.2 h'.2.
Proof.
  unfold link_horse.
  destruct (for_each (link_run db) h.2) as [rs|e] eqn:H; simpl.
  - apply for_each_Ok in H. split.
    + by intros [= <-].
    + intros [H1 H2%for_each_Ok]. destruct h' as [n' rs']; simpl in *.
      subst. rewrite <- for_each_Ok in H. congruence.
  - split; [done|]. intros [_ H2%for_each_Ok]. congruence.
Qed.

Lemma link_cushion_data_Ok (db : gmap string json) (rd rd' : race_data) :
  link_cushion_data rd db = Ok rd' ↔
  info rd' = info rd ∧
  Forall2
    (λ h h', h'.1 = h.1 ∧ Forall2 (λ r r', link_run db r = Ok r') h.2 h'.2)
    (horses rd) (horses rd').
Proof.
  unfold link_cushion_data.
  destruct (for_each (link_horse db) (horses rd)) as [hs|e] eqn:H; simpl.
  - apply for_each_Ok in H. split.
    + intros [= <-]. simpl. split; [done|].
      eapply Forall2_impl; [exact H|]. intros ? ?. apply link_horse_Ok.
    + intros [Hi Hh]. destruct rd' as [i' hs']; simpl in *. subst.
      f_equal. apply for_each_Ok in H.
      assert (for_each (link_horse db) (horses rd) = Ok hs') as H'.
      { apply for_each_Ok. eapply Forall2_impl; [exact Hh|].
        intros ? ?. apply link_horse_Ok. }
      congruence.
  - split; [done|]. intros [_ Hh].
    assert (for_each (link_horse db) (horses rd) = Ok (horses rd')) as H'.
    { apply for_each_Ok. eapply Forall2_impl; [exact Hh|].
      intros ? ?. apply link_horse_Ok. }
    congruence.
Qed.

(** The join goes through exactly when no run hits an entry without a
    cushion. *)
Lemma link_cushion_data_is_Ok (db : gmap string json) (rd : race_data) :
  (∃ rd', link_cushion_data rd db = Ok rd') ↔ hits_have_cushion db rd.
Proof.
  unfold hits_have_cushion, link_cushion_data.
  rewrite Forall_forall. split.
  - intros [rd' H] h Hh.
    destruct (for_each (link_horse db) (horses rd)) as [hs|e] eqn:Hf;
      [|done].
    assert (∃ k, for_each (link_horse db) (horses rd) = Ok k) as Hex
      by by eexists.
    apply for_each_is_Ok in Hex. rewrite Forall_forall in Hex.
    destruct (Hex h Hh) as [h' Hh']. apply link_horse_Ok in Hh' as [_ Hrs].
    apply Forall_forall. intros r Hr.
    apply link_run_is_Ok.
    apply list_elem_of_lookup in Hr as [i Hi].
    destruct (Forall2_lookup_l _ _ _ _ _ Hrs Hi) as (r' & _ & Hr').
    by exists r'.
  - intros H.
    assert (∃ k, for_each (link_horse db) (horses rd) = Ok k) as [hs Hhs].
    { apply for_each_is_Ok, Forall_forall. intros h Hh.
      specialize (H h Hh).
      assert (∃ k, for_each (link_run db) h.2 = Ok k) as [rs Hrs].
      { apply for_each_is_Ok. eapply Forall_impl; [exact H|].
        intros r Hr. by apply link_run_is_Ok. }
      exists (h.1, rs). unfold link_horse. by rewrite Hrs. }
    rewrite Hhs. by eexists.
Qed.

End join.

Section join_claims.
Import Join Samples.

(** The example of the specification: a turf run joins to 9.8 and 11.2,
    the same run on dirt to 4.5; a run with no entry joins to nothing. *)
Example join_sample :
  link_cushion_data sample_race (json_load_object table)
  = Ok {| info := info sample_race;
          horses :=
            [ ("A", [ set_moisture (JFloat 11.2)
                        (set_cushion (JFloat 9.8) turf_run);
                      set_moisture (JFloat 4.5)
                        (set_cushion (JFloat 9.8) dirt_run);
                      old_run ]);
              ("B", []) ] |}.
Proof. by vm_compute. Qed.

Lemma selected_field_dirt (r : run) :
  surface r = "ダ" ∨ surface r = "ダート" → selected_field r = "dirt_goal".
Proof.
  unfold selected_field.
  intros [H|H]; repeat case_bool_decide; simpl; congruence.
Qed.

Lemma selected_field_other (r : run) :
  surface r ≠ "ダ" ∧ surface r ≠ "ダート" → selected_field r = "turf_goal".
Proof.
  unfold selected_field.
  intros [H1 H2]; repeat case_bool_decide; simpl; congruence.
Qed.



End join_claims.

Section join_atomicity.
Import Join Samples.

(** C1, as the specification has it, fails: with an entry whose dirt
  moisture is null, the join of a dirt run goes through and leaves the
  run with the cushion of the entry and a null moisture. *)
Lemma join_atomicity_counterexample :
∃ rd' h r,
  link_cushion_data sample_race (json_load_object table_no_dirt) = Ok rd' ∧
  h ∈ horses rd' ∧ r ∈ h.2 ∧
  ¬ (cushion r = JNull ↔ moisture r = JNull).
Proof.
eexists _, ("A", _), (set_moisture JNull (set_cushion (JFloat 9.8) dirt_run)).
split; [by vm_compute|].
split; [apply list_elem_of_here|].
split; [apply list_elem_of_further, list_elem_of_here|].
simpl. intros [_ H]. by specialize (H eq_refl).
Qed.

(** C1, amended. After the join, a run whose key is not in the table has
  a null cushion and a null moisture; a run whose key is in the table
  has the cushion of the entry and, as moisture, the field of the entry
  that its surface selects, null when the entry has none: the cushion of
  such a run is null exactly when the entry's is, and its moisture is
  null exactly when the selected field is, each on its own. *)
Theorem join_sets_both_fields (cushion_db : gmap string json)
  (rd rd' : race_data) :
link_cushion_data rd cushion_db = Ok rd' →
Forall2
  (λ h h',
     Forall2
       (λ r r',
          match cushion_db !! key_of r with
          | Some entry =>
              cushion r' = field_of entry "cushion" ∧
              moisture r' = field_of entry (selected_field r) ∧
              (joined r' ↔
                 field_of entry "cushion" ≠ JNull ∧
                 field_of entry (selected_field r) ≠ JNull)
          | None => cushion r' = JNull ∧ moisture r' = JNull
          end)
       h.2 h'.2)
  (horses rd) (horses rd').
Proof.
intros [_ Hhs]%link_cushion_data_Ok.
eapply Forall2_impl; [exact Hhs|]. intros h h' [_ Hrs].
eapply Forall2_impl; [exact Hrs|]. intros r r' Hr%link_run_Ok.
destruct (cushion_db !! key_of r) as [entry|].
- by destruct Hr as [_ ->].
- by subst r'.
Qed.

(** The sample race joined against the table without a dirt moisture. *)
Lemma join_sets_both_fields_witness :
Forall2
  (λ h h',
     Forall2
       (λ r r',
          match json_load_object table_no_dirt !! key_of r with
          | Some entry =>
              cushion r' = field_of entry "cushion" ∧
              moisture r' = field_of entry (selected_field r) ∧
              (joined r' ↔
                 field_of entry "cushion" ≠ JNull ∧
                 field_of entry (selected_field r) ≠ JNull)
          | None => cushion r' = JNull ∧ moisture r' = JNull
          end)
       h.2 h'.2)
  (horses sample_race)
  [ ("A", [ set_moisture (JFloat 11.2) (set_cushion (JFloat 9.8) turf_run);
            set_moisture JNull (set_cushion (JFloat 9.8) dirt_run);
            old_run ]);
    ("B", []) ].
Proof.
apply (join_sets_both_fields (json_load_object table_no_dirt) sample_race
         {| info := info sample_race;
            horses :=
              [ ("A", [ set_moisture (JFloat 11.2)
                          (set_cushion (JFloat 9.8) turf_run);
                        set_moisture JNull
                          (set_cushion (JFloat 9.8) dirt_run);
                        old_run ]);
                ("B", []) ] |}).
vm_compute. reflexivity.
Defined.

End join_atomicity.

(* ------------------------------------------------------------------ *)
(** ** Loading the condition table *)
(* ------------------------------------------------------------------ *)

Section condition_store.
Import Join Samples.

Lemma load_lookup_other (l : list (string * json))
    (d : gmap string json) (k : string) :
  k ∉ l.*1 →
  fold_left (λ d kv, <[kv.1 := kv.2]> d) l d !! k = d !! k.
Proof.
  revert d. induction l as [|[k' v'] l IH]; intros d Hk; simpl; [done|].
  rewrite fmap_cons, not_elem_of_cons in Hk. destruct Hk as [Hne Hk].
  rewrite IH by done. simpl. by rewrite lookup_insert_ne.
Qed.

(** The last member with a key is the one that stays. *)
Lemma load_lookup_last (l1 l2 : list (string * json))
    (d : gmap string json) (k : string) (v : json) :
  k ∉ l2.*1 →
  fold_left (λ d kv, <[kv.1 := kv.2]> d) (l1 ++ (k, v) :: l2) d !! k
  = Some v.
Proof.
  intros Hk. rewrite fold_left_app. simpl.
  rewrite load_lookup_other by done. apply lookup_insert_eq.
Qed.

Lemma load_is_Some (l : list (string * json)) (d : gmap string json)
    (k : string) :
  is_Some (fold_left (λ d kv, <[kv.1 := kv.2]> d) l d !! k) ↔
  k ∈ l.*1 ∨ is_Some (d !! k).
Proof.
  revert d. induction l as [|[k' v'] l IH]; intros d; simpl.
  - rewrite elem_of_nil. tauto.
  - rewrite IH, elem_of_cons, lookup_insert_is_Some.
    destruct (decide (k' = k)); naive_solver.
Qed.

Lemma load_lookup_Some (l : list (string * json)) (d : gmap string json)
    (k : string) (v : json) :
  fold_left (λ d kv, <[kv.1 := kv.2]> d) l d !! k = Some v →
  (k, v) ∈ l ∨ d !! k = Some v.
Proof.
  revert d. induction l as [|[k' v'] l IH]; intros d; simpl.
  - by right.
  - intros [H|H]%IH.
    + left. by apply list_elem_of_further.
    + apply lookup_insert_Some in H as [[-> ->]|[_ H]].
      * left. apply list_elem_of_here.
      * by right.
Qed.

(** C2, as the specification has it, fails: an entry of the table that has
  no cushion field is loaded like any other, a lookup returns it, and
  the join of a race with a run on that day and venue raises
  [KeyError]; the exception leaves [main] before the index is written. *)
Lemma load_best_effort_counterexample :
json_load_object table_no_cushion !! "20260215_東京"
  = Some tokyo_entry_no_cushion ∧
¬ has_cushion tokyo_entry_no_cushion ∧
link_cushion_data sample_race (json_load_object table_no_cushion)
  = Raise (KeyError "cushion") ∧
Pipeline.main no_scrape no_arguments "20260531" "output" [listed_race] ∅
  table_no_cushion cached
  = (cached, Raise (KeyError "cushion")).
Proof.
split; [by vm_compute|]. split.
- intros (m & c & Hm & Hc). injection Hm as <-. by vm_compute in Hc.
- split; by vm_compute.
Qed.

(** C2, amended. Loading keeps every entry of the table as it is: a key
  is in the loaded table exactly when the file has it, the value found
  is one the file gives for that key, the last one when there are
  several; nothing is checked or left out.  The join of a race goes
  through exactly when every entry that a run of the race looks up is a
  dict with a cushion field. *)
Theorem load_keeps_every_entry (members : list (string * json))
  (rd : race_data) :
let cushion_db := json_load_object members in
(∀ k, is_Some (cushion_db !! k) ↔ k ∈ members.*1) ∧
(∀ k entry, cushion_db !! k = Some entry → (k, entry) ∈ members) ∧
(∀ l1 l2 k entry, members = l1 ++ (k, entry) :: l2 → k ∉ l2.*1 →
                  cushion_db !! k = Some entry) ∧
((∃ rd', link_cushion_data rd cushion_db = Ok rd') ↔
 hits_have_cushion cushion_db rd).
Proof.
intros cushion_db. subst cushion_db. unfold json_load_object.
split; [|split; [|split]].
- intros k. rewrite load_is_Some, lookup_empty.
  split; [intros [?|[? ?]]; done | by left].
- intros k entry [H|H]%load_lookup_Some; [done|].
  by rewrite lookup_empty in H.
- intros l1 l2 k entry -> Hk. by apply load_lookup_last.
- apply link_cushion_data_is_Ok.
Qed.

End condition_store.

(* ------------------------------------------------------------------ *)
(** ** The index page *)
(* ------------------------------------------------------------------ *)

Section index.
Import Index.

#[local] Instance Z_comparison : Comparison Z.compare.
Proof.
  split.
  - apply Z.compare_eq.
  - apply Z.compare_refl.
  - intros x y. apply Z.compare_antisym.
  - intros x y z. rewrite !Z.compare_lt_iff. lia.
Qed.

#[local] Instance nat_comparison : Comparison Nat.compare.
Proof.
  split.
  - apply Nat.compare_eq.
  - apply Nat.compare_refl.
  - intros x y. apply Nat.compare_antisym.
  - intros x y z. rewrite !Nat.compare_lt_iff. lia.
Qed.

#[local] Instance ascii_comparison : Comparison Ascii.compare.
Proof.
  split.
  - apply Ascii.compare_eq_iff.
  - intros x. unfold Ascii.compare. apply N.compare_refl.
  - intros x y. apply Ascii.compare_antisym.
  - intros x y z. unfold Ascii.compare. rewrite !N.compare_lt_iff. lia.
Qed.

#[local] Instance string_comparison : Comparison String.compare.
Proof.
  split.
  - apply String.compare_eq_iff.
  - intros x. induction x as [|c x IH]; simpl; [done|].
    by rewrite (cmp_refl (cmp := Ascii.compare)).
  - intros x y. apply String.compare_antisym.
  - intros x. induction x as [|a x IH]; intros [|b y] [|c z]; simpl;
      try done.
    destruct (Ascii.compare a b) eqn:Hab, (Ascii.compare b c) eqn:Hbc;
      try done; intros Hxy Hyz.
    + apply cmp_eq in Hab, Hbc. subst.
      rewrite (cmp_refl (cmp := Ascii.compare)). by eapply IH.
    + apply cmp_eq in Hab. subst. by rewrite Hbc.
    + apply cmp_eq in Hbc. subst. by rewrite Hab.
    + by rewrite (cmp_lt_trans _ _ _ Hab Hbc).
Qed.

#[local] Instance lex_comparison {A B : Type}
    (cmp_a : A → A → comparison) (cmp_b : B → B → comparison)
    `{!Comparison cmp_a, !Comparison cmp_b} :
  Comparison (lex cmp_a cmp_b).
Proof.
  split; unfold lex.
  - intros [a1 b1] [a2 b2]. simpl.
    destruct (cmp_a a1 a2) eqn:Ha; try done.
    intros Hb. apply cmp_eq in Ha, Hb. by subst.
  - intros [a b]. simpl. by rewrite !cmp_refl.
  - intros [a1 b1] [a2 b2]. simpl.
    rewrite (cmp_antisym (cmp := cmp_a) a1 a2).
    destruct (cmp_a a1 a2); simpl; try done. apply cmp_antisym.
  - intros [a1 b1] [a2 b2] [a3 b3]. simpl.
    destruct (cmp_a a1 a2) eqn:H12, (cmp_a a2 a3) eqn:H23; try done;
      intros Hx Hy.
    + apply cmp_eq in H12, H23. subst. rewrite cmp_refl.
      by eapply cmp_lt_trans.
    + apply cmp_eq in H12. subst. by rewrite H23.
    + apply cmp_eq in H23. subst. by rewrite H12.
    + by rewrite (cmp_lt_trans _ _ _ H12 H23).
Qed.

#[local] Instance entry_comparison : Comparison entry_compare.
Proof. unfold entry_compare. apply _. Qed.

#[local] Instance entry_le_total : Total entry_le.
Proof.
  intros a b. unfold entry_le, entry_leb.
  rewrite (cmp_antisym (cmp := entry_compare) a b).
  destruct (entry_compare a b); simpl; auto.
Qed.

#[local] Instance entry_le_trans : Transitive entry_le.
Proof.
  intros a b c. unfold entry_le, entry_leb.
  destruct (entry_compare a b) eqn:Hab, (entry_compare b c) eqn:Hbc;
    try done; intros _ _.
  - apply cmp_eq in Hab, Hbc. subst. by rewrite cmp_refl.
  - apply cmp_eq in Hab. subst. by rewrite Hbc.
  - apply cmp_eq in Hbc. subst. by rewrite Hab.
  - by rewrite (cmp_lt_trans _ _ _ Hab Hbc).
Qed.

#[local] Instance entry_le_antisym : AntiSymm (=) entry_le.
Proof.
  intros a b. unfold entry_le, entry_leb.
  rewrite (cmp_antisym (cmp := entry_compare) a b).
  destruct (entry_compare a b) eqn:Hab; try done.
  intros _ _. by apply cmp_eq in Hab.
Qed.

(** [sorted l] is the one ordered arrangement of [l]: the list that
    Python's [sorted] returns. *)
Lemma sorted_unique (l l' : list entry) :
  l' ≡ₚ l → Sorted entry_le l' → l' = sorted l.
Proof.
  intros HP HS. apply (Sorted_unique entry_le); [done| |].
  - apply (Sorted_merge_sort entry_le).
  - unfold sorted. by rewrite (merge_sort_Permutation entry_le).
Qed.

Lemma entry_le_rnum (a b : entry) : entry_le a b → a.1.1.1 ≤ b.1.1.1.
Proof.
  destruct a as [[[n1 s1] t1] p1], b as [[[n2 s2] t2] p2].
  unfold entry_le, entry_leb, entry_compare, lex. simpl.
  destruct (Z.compare_spec n1 n2); try done; lia.
Qed.

Lemma l_rnum_link_of venue (e : entry) : l_rnum (link_of venue e) = e.1.1.1.
Proof. by destruct e as [[[? ?] ?] ?]. Qed.

Lemma sorted_by_rnum venue (es : list entry) :
  Sorted Z.le (l_rnum <$> (link_of venue <$> sorted es)).
Proof.
  rewrite <- list_fmap_compose.
  eapply Sorted_fmap; [|apply (Sorted_merge_sort entry_le)].
  intros a b Hab. simpl. rewrite !l_rnum_link_of. by apply entry_le_rnum.
Qed.

Lemma add_summary_lookup (venues : gmap string (list entry))
    v0 rnum rname total pts (v : string) :
  add_summary venues (v0, rnum, rname, total, pts) !! v
  = if decide (v0 = v)
    then Some (default [] (venues !! v0) ++ [(rnum, rname, total, pts)])
    else venues !! v.
Proof.
  unfold add_summary. destruct (decide (v0 = v)) as [->|Hne].
  - destruct (venues !! v) as [l|] eqn:Hl.
    + by rewrite lookup_alter_eq, Hl.
    + by rewrite lookup_alter_eq, lookup_insert_eq.
  - rewrite lookup_alter_ne by done.
    destruct (venues !! v0); [done|]. by rewrite lookup_insert_ne.
Qed.

Lemma entries_of_cons (v v0 : string) rnum rname total pts
    (rs : list summary) :
  entries_of v ((v0, rnum, rname, total, pts) :: rs)
  = if decide (v0 = v) then (rnum, rname, total, pts) :: entries_of v rs
    else entries_of v rs.
Proof. unfold entries_of. simpl. by destruct (decide (v0 = v)). Qed.

Lemma group_fold_lookup (rs : list summary)
    (venues : gmap string (list entry)) (v : string) :
  fold_left add_summary rs venues !! v
  = match venues !! v with
    | Some l => Some (l ++ entries_of v rs)
    | None => if entries_of v rs is [] then None
              else Some (entries_of v rs)
    end.
Proof.
  revert venues.
  induction rs as [|[[[[v0 rnum] rname] total] pts] rs IH];
    intros venues; cbn [fold_left].
  - simpl. destruct (venues !! v); [by rewrite app_nil_r|done].
  - rewrite IH, add_summary_lookup, entries_of_cons.
    destruct (decide (v0 = v)) as [->|Hne]; [|done].
    destruct (venues !! v); simpl; [by rewrite <- app_assoc|done].
Qed.

Lemma group_by_venue_lookup (rs : list summary) (v : string) :
  group_by_venue rs !! v
  = if entries_of v rs is [] then None else Some (entries_of v rs).
Proof.
  unfold group_by_venue. by rewrite group_fold_lookup, lookup_empty.
Qed.

(** The block that the loop writes for a venue that has races. *)
Lemma sections_spec (rs : list summary)
    (jra_live : gmap string (gmap string json)) (dl : string) :
  sections (generate_index rs jra_live dl)
  = (λ v, {| sec_venue := v;
             sec_info := (venue_info_of <$> jra_live) !! v;
             sec_links := link_of v <$> sorted (entries_of v rs) |})
      <$> filter (λ v, entries_of v rs ≠ []) VENUE_ORDER.
Proof.
  unfold generate_index. cbn [sections].
  rewrite (fold_left_append_filter (λ v, entries_of v rs ≠ [])
             (λ v, {| sec_venue := v;
                      sec_info := (venue_info_of <$> jra_live) !! v;
                      sec_links :=
                        link_of v <$> sorted (entries_of v rs) |})).
  - done.
  - intros acc v Hv. unfold index_venue.
    rewrite group_by_venue_lookup. by destruct (entries_of v rs).
  - intros acc v Hv. unfold index_venue.
    rewrite group_by_venue_lookup. destruct (entries_of v rs); [done|].
    by destruct Hv.
Qed.

Example index_sample :
  sections
    (generate_index
       [ ("京都", 11, "B", 16%nat, 40%nat); ("東京", 12, "C", 16%nat, 31%nat);
         ("?", 1, "D", 9%nat, 0%nat); ("東京", 2, "A", 14%nat, 25%nat) ]
       ∅ "05/31")
  = [ {| sec_venue := "東京"; sec_info := None;
         sec_links :=
           [ {| href := "scatter_東京02R_A.html"; l_rnum := 2;
                l_rname := "A"; l_total := 14; l_pts := 25 |};
             {| href := "scatter_東京12R_C.html"; l_rnum := 12;
                l_rname := "C"; l_total := 16; l_pts := 31 |} ] |};
      {| sec_venue := "京都"; sec_info := None;
         sec_links :=
           [ {| href := "scatter_京都11R_B.html"; l_rnum := 11;
                l_rname := "B"; l_total := 16; l_pts := 40 |} ] |} ].
Proof. by vm_compute. Qed.

(** C8. The index writes one block for each venue of the fixed list
  (line 763) that has a race among the summaries, in the order of that
  list, and none for a venue of the list without a race; the list holds
  the ten venue names, each once.  The links of a block are the races of
  its venue, none lost and none added, in ascending order of race
  number; a block is never empty. *)
Theorem index_order_and_omission (results_summary : list summary)
  (jra_live : gmap string (gmap string json)) (date_label : string) :
let ix := generate_index results_summary jra_live date_label in
(NoDup VENUE_ORDER ∧ VENUE_ORDER ≡ₚ VenueCodec.canonical_venues) ∧
sec_venue <$> sections ix
  = filter (λ v, entries_of v results_summary ≠ []) VENUE_ORDER ∧
Forall
  (λ sec,
     sec_links sec ≠ [] ∧
     Sorted Z.le (l_rnum <$> sec_links sec) ∧
     sec_links sec
       ≡ₚ (link_of (sec_venue sec)
             <$> entries_of (sec_venue sec) results_summary))
  (sections ix).
Proof.
intros ix. subst ix. rewrite sections_spec. split; [|split].
- split; [by apply (bool_decide_unpack _)|].
  apply NoDup_Permutation.
  + by apply (bool_decide_unpack _).
  + by apply (bool_decide_unpack _).
  + intros v. unfold VENUE_ORDER, VenueCodec.canonical_venues.
    rewrite !elem_of_cons, !elem_of_nil. tauto.
- rewrite <- list_fmap_compose. simpl. apply list_fmap_id.
- apply Forall_fmap, Forall_forall. intros v Hv. simpl.
  apply list_elem_of_filter in Hv as [Hv _]. split; [|split].
  + intros Hnil. apply fmap_nil_inv in Hnil.
    pose proof (merge_sort_Permutation entry_le (entries_of v results_summary))
      as HP.
    unfold sorted in Hnil. rewrite Hnil in HP. symmetry in HP.
    by apply Permutation_nil_r in HP.
  + apply sorted_by_rnum.
  + apply fmap_Permutation, (merge_sort_Permutation entry_le).
Qed.

End index.

(* ------------------------------------------------------------------ *)
(** ** The pipeline *)
(* ------------------------------------------------------------------ *)

Section pipeline.
Import Pipeline Samples.
Variable scrape_race_data : string → option race_data.

Lemma filter_races_flat (args : arguments) (races : list race) :
  Forall (flat_race races) (filter_races args races).
Proof.
  apply Forall_forall. intros r Hr. unfold filter_races in Hr.
  apply list_elem_of_filter in Hr as [Hs Hr]. split; [|done].
  destruct (arg_race args) as [n|]; [case_bool_decide|];
    try apply list_elem_of_filter in Hr as [_ Hr];
    (destruct (arg_venue args) as [v|]; [case_bool_decide|];
     try apply list_elem_of_filter in Hr as [_ Hr]; done).
Qed.

Lemma get_or_fetch_trace (rid : string) (w : world) :
  ∃ new,
    trace (get_or_fetch scrape_race_data rid w).1 = trace w ++ new ∧
    Forall (λ e, e = Scraped rid ∨ ∃ rd, e = CacheWritten rid rd) new.
Proof.
  unfold get_or_fetch. destruct (cache w !! rid) as [rd|].
  - exists []. simpl. by rewrite app_nil_r.
  - destruct (scrape_race_data rid) as [rd|]; simpl.
    + exists [Scraped rid; CacheWritten rid rd].
      rewrite <- app_assoc. split; [done|].
      constructor; [by left|]. constructor; [right; by eexists|].
      constructor.
    + exists [Scraped rid]. split; [done|].
      constructor; [by left|]. constructor.
Qed.

Lemma process_race_trace jra_live cushion_db out_dir dl
    (w : world) (rs : list Index.summary) (r : race) :
  ∃ new,
    trace (process_race scrape_race_data jra_live cushion_db out_dir dl
             w rs r).1 = trace w ++ new ∧
    Forall (event_of_race r) new ∧
    match (process_race scrape_race_data jra_live cushion_db out_dir dl
             w rs r).2 with
    | Ok rs' => rs' = rs ∨ ∃ s, summary_of_race r s ∧ rs' = rs ++ [s]
    | Raise _ => True
    end.
Proof.
  unfold process_race.
  destruct (get_or_fetch_trace (race_id r) w) as (new & Hnew & Hall).
  assert (Forall (event_of_race r) new) as Hall'.
  { eapply Forall_impl; [exact Hall|].
    intros e [->|[rd ->]]; reflexivity. }
  destruct (get_or_fetch scrape_race_data (race_id r) w) as [w1 [rd|]];
    simpl in Hnew.
  - destruct (Join.link_cushion_data rd cushion_db) as [rd'|e]; simpl.
    + eexists (new ++ [_]). rewrite Hnew, <- app_assoc.
      split; [done|]. split.
      * apply Forall_app. split; [done|]. by repeat constructor.
      * right. eexists. split; [|done]. by eexists _, _.
    + exists new. auto.
  - exists new. simpl. auto.
Qed.

Lemma process_races_trace (all : list race) jra_live cushion_db out_dir dl
    (races : list race) (w : world) (rs : list Index.summary) :
  Forall (flat_race all) races →
  Forall (λ s, ∃ r, flat_race all r ∧ summary_of_race r s) rs →
  ∃ new,
    trace (process_races scrape_race_data jra_live cushion_db out_dir dl
             w rs races).1 = trace w ++ new ∧
    Forall (λ e, ∃ r, flat_race all r ∧ event_of_race r e) new ∧
    match (process_races scrape_race_data jra_live cushion_db out_dir dl
             w rs races).2 with
    | Ok rs' => Forall (λ s, ∃ r, flat_race all r ∧ summary_of_race r s) rs'
    | Raise _ => True
    end.
Proof.
  intros Hraces. revert w rs.
  induction Hraces as [|r races Hr Hraces IH]; intros w rs Hrs; simpl.
  - exists []. by rewrite app_nil_r.
  - destruct (process_race_trace jra_live cushion_db out_dir dl w rs r)
      as (new1 & Ht1 & Hall1 & Hres1).
    destruct (process_race scrape_race_data jra_live cushion_db out_dir dl
                w rs r) as [w1 [rs1|e]]; simpl in *.
    + destruct (IH w1 rs1) as (new2 & Ht2 & Hall2 & Hres2).
      { destruct Hres1 as [->|(s & Hs & ->)]; [done|].
        apply Forall_app. split; [done|]. repeat constructor. eauto. }
      exists (new1 ++ new2). rewrite Ht2, Ht1, <- app_assoc.
      split; [done|]. split; [|done].
      apply Forall_app. split; [|done].
      eapply Forall_impl; [exact Hall1|]. eauto.
    + exists new1. split; [done|]. split; [|done].
      eapply Forall_impl; [exact Hall1|]. eauto.
Qed.

Lemma elem_of_entries_of (v : string) (e : Index.entry)
    (rs : list Index.summary) :
  e ∈ entries_of v rs → (v, e.1.1.1, e.1.1.2, e.1.2, e.2) ∈ rs.
Proof.
  unfold entries_of. intros (s & Hs & He)%list_elem_of_omap.
  destruct s as [[[[v0 rnum] rname] total] pts].
  destruct (decide (v0 = v)) as [->|]; [|done].
  by injection He as <-.
Qed.

Lemma index_links_flat (all : list race) (rs : list Index.summary)
    jra_live dl :
  Forall (λ s, ∃ r, flat_race all r ∧ summary_of_race r s) rs →
  Forall
    (λ sec,
       Forall (λ l, ∃ r, flat_race all r ∧
                         link_of_race r (Index.sec_venue sec) l)
         (Index.sec_links sec))
    (Index.sections (Index.generate_index rs jra_live dl)).
Proof.
  intros Hrs. rewrite sections_spec.
  apply Forall_fmap, Forall_forall. intros v _. simpl.
  apply Forall_fmap, Forall_forall. intros e He. simpl.
  unfold Index.sorted in He.
  rewrite (merge_sort_Permutation Index.entry_le) in He.
  apply elem_of_entries_of in He.
  rewrite Forall_forall in Hrs.
  destruct (Hrs _ He) as (r & Hr & total & pts & Heq).
  exists r. split; [done|].
  destruct e as [[[rnum rname] t] p]. simpl in Heq.
  injection Heq as -> -> -> _ _. by repeat split.
Qed.

Lemma target_cushion_default (jra_live : gmap string (gmap string json))
    (venue : string) :
  jra_live !! venue = None → target_cushion jra_live venue = JFloat 9.5.
Proof. intros H. unfold target_cushion. by rewrite H. Qed.

Lemma target_moisture_default (jra_live : gmap string (gmap string json))
    (venue surface : string) :
  jra_live !! venue = None →
  target_moisture jra_live venue surface
  = if bool_decide (surface = "ダ") then JFloat 5.0 else JFloat 12.0.
Proof.
  intros H. unfold target_moisture. rewrite H.
  by case_bool_decide.
Qed.

(** Drawing a race again from the same cache entry writes the same
    page, whatever else the two runs did before. *)
Lemma rerender_same_page jra_live cushion_db out_dir dl
    (w1 w2 : world) (rs1 rs2 : list Index.summary) (r : race)
    (rd : race_data) :
  cache w1 !! race_id r = Some rd → cache w2 !! race_id r = Some rd →
  ∃ new,
    trace (process_race scrape_race_data jra_live cushion_db out_dir dl
             w1 rs1 r).1 = trace w1 ++ new ∧
    trace (process_race scrape_race_data jra_live cushion_db out_dir dl
             w2 rs2 r).1 = trace w2 ++ new.
Proof.
  intros H1 H2. unfold process_race, get_or_fetch. rewrite H1, H2.
  destruct (Join.link_cushion_data rd cushion_db) as [rd'|e]; simpl.
  - by eexists [_].
  - exists []. by rewrite !app_nil_r.
Qed.

(** C9. The fallback of the target point: when [jra_live] has nothing for
  the venue of a race, the target cushion is 9.5 and the target moisture
  is 5.0 for a dirt race and 12.0 for any other, a turf race among them;
  and these are the [TX] and [TY] of the page that the run writes for
  the race, once its data is there and joined. *)
Theorem target_fallback (jra_live : gmap string (gmap string json))
  (cushion_db : gmap string json) (out_dir date_label : string)
  (w w1 : world) (results_summary : list Index.summary) (r : race)
  (rd rd' : race_data) :
jra_live !! venue r = None →
get_or_fetch scrape_race_data (race_id r) w = (w1, Some rd) →
Join.link_cushion_data rd cushion_db = Ok rd' →
target_cushion jra_live (venue r) = JFloat 9.5 ∧
(surface r = "ダ" →
   target_moisture jra_live (venue r) (surface r) = JFloat 5.0) ∧
(surface r ≠ "ダ" →
   target_moisture jra_live (venue r) (surface r) = JFloat 12.0) ∧
∃ file p s,
  process_race scrape_race_data jra_live cushion_db out_dir date_label
    w results_summary r
  = (emit (PageWritten out_dir file p) w1, Ok (results_summary ++ [s])) ∧
  Renderer.TX p = target_cushion jra_live (venue r) ∧
  Renderer.TY p = target_moisture jra_live (venue r) (surface r).
Proof.
intros Hlive Hfetch Hlink.
split; [by apply target_cushion_default|].
rewrite (target_moisture_default _ _ _ Hlive).
split; [intros Hs; by rewrite bool_decide_true|].
split; [intros Hs; by rewrite bool_decide_false|].
unfold process_race. rewrite Hfetch, Hlink. simpl.
eexists _, _, _. split; [reflexivity|]. simpl.
by rewrite (target_moisture_default _ _ _ Hlive).
Qed.

(** C10. Obstacle races are left out before anything is done: whatever
  the arguments, the race list, the cache and the scraper, every scrape,
  every cache file and every page of the run is for a race of the list
  whose surface is not '障', and so is every link of the index; this
  holds of all that the run did, also when it ends with an exception. *)
Theorem obstacle_races_excluded (args : arguments)
  (date_str out_dir : string) (races : list race)
  (jra_live : gmap string (gmap string json))
  (table : list (string * json)) (w : world) :
Forall (flat_race races) (filter_races args races) ∧
∃ new,
  trace (main scrape_race_data args date_str out_dir races jra_live
           table w).1 = trace w ++ new ∧
  Forall (event_of_flat_races races) new.
Proof.
split; [apply filter_races_flat|]. unfold main.
destruct (process_races_trace races jra_live (json_load_object table)
            out_dir
            (substring 4 2 date_str ++ "/" ++ substring 6 2 date_str)%string
            (filter_races args races) w [])
  as (new & Ht & Hall & Hres);
  [apply filter_races_flat | constructor |].
destruct (process_races scrape_race_data jra_live (json_load_object table)
            out_dir _ w [] (filter_races args races)) as [w1 [rs|e]];
  simpl in *.
- eexists (new ++ [_]). rewrite Ht, <- app_assoc. split; [done|].
  apply Forall_app. split.
  + eapply Forall_impl; [exact Hall|].
    intros e (r & Hr & He). destruct e; try (by exists r). done.
  + constructor; [|constructor].
    exact (index_links_flat races rs jra_live _ Hres).
- exists new. split; [done|].
  eapply Forall_impl; [exact Hall|].
  intros e' (r & Hr & He). destruct e'; try (by exists r). done.
Qed.

End pipeline.

Section pipeline_samples.
Import Pipeline Samples.

(** The run on the sample: the obstacle race is not touched, the other
    race gets its page, drawn against the fallback point, and the index
    has one link. *)
Example main_sample :
  main no_scrape no_arguments "20260531" "output"
    [obstacle_race; listed_race] ∅ table cached
  = ({| cache := cache cached;
        trace :=
          [ PageWritten "output" "scatter_東京11R_安田記念.html"
              (Renderer.generate_scatter_html
                 {| info := info sample_race;
                    horses :=
                      [ ("A", [ set_moisture (JFloat 11.2)
                                  (set_cushion (JFloat 9.8) turf_run);
                                set_moisture (JFloat 4.5)
                                  (set_cushion (JFloat 9.8) dirt_run);
                                old_run ]);
                        ("B", []) ] |}
                 (JFloat 9.5) (JFloat 12.0) "05/31" 11).1;
            IndexWritten "output"
              {| Index.ix_date_label := "05/31";
                 Index.sections :=
                   [ {| Index.sec_venue := "東京";
                        Index.sec_info := None;
                        Index.sec_links :=
                          [ {| Index.href := "scatter_東京11R_安田記念.html";
                               Index.l_rnum := 11;
                               Index.l_rname := "安田記念";
                               Index.l_total := 2;
                               Index.l_pts := 2 |} ] |} ] |} ] |},
     Ok ()).
Proof. by vm_compute. Qed.

(** The fallback on the sample: nothing was measured, the race is on
  turf, the page is drawn against 9.5 and 12.0. *)
Lemma target_fallback_witness :
target_cushion ∅ (venue listed_race) = JFloat 9.5 ∧
(surface listed_race = "ダ" →
   target_moisture ∅ (venue listed_race) (surface listed_race)
   = JFloat 5.0) ∧
(surface listed_race ≠ "ダ" →
   target_moisture ∅ (venue listed_race) (surface listed_race)
   = JFloat 12.0) ∧
∃ file p s,
  process_race no_scrape ∅ (json_load_object table) "output" "05/31"
    cached [] listed_race
  = (emit (PageWritten "output" file p) cached, Ok ([] ++ [s])) ∧
  Renderer.TX p = target_cushion ∅ (venue listed_race) ∧
  Renderer.TY p = target_moisture ∅ (venue listed_race)
                    (surface listed_race).
Proof.
apply (target_fallback no_scrape ∅ (json_load_object table) "output"
         "05/31" cached cached [] listed_race sample_race
         {| info := info sample_race;
            horses :=
              [ ("A", [ set_moisture (JFloat 11.2)
                          (set_cushion (JFloat 9.8) turf_run);
                        set_moisture (JFloat 4.5)
                          (set_cushion (JFloat 9.8) dirt_run);
                        old_run ]);
                ("B", []) ] |}).
- reflexivity.
- vm_compute. reflexivity.
- vm_compute. reflexivity.
Defined.

End pipeline_samples.

(* ================================================================== *)
(** * Further properties *)
(* ================================================================== *)

(* ------------------------------------------------------------------ *)
(** ** The page: what is counted and what is shown *)
(* ------------------------------------------------------------------ *)

Section renderer_more.
Import Renderer.

Lemma sum_list_nonempty {A : Type} (f : A → nat) (P : A → Prop)
    `{!∀ x, Decision (P x)} (l : list A) :
  (∀ x, P x ↔ f x ≠ 0%nat) →
  (length (filter P l) ≤ sum_list (f <$> l))%nat.
Proof.
  intros HP. induction l as [|x l IH]; csimpl; [done|].
  rewrite filter_cons. destruct (decide (P x)) as [Hx|Hx]; csimpl.
  - apply HP in Hx. lia.
  - lia.
Qed.

Lemma filter_joined_nonempty (l : list run) :
  filter joined l ≠ [] ↔ Exists joined l.
Proof.
  rewrite Exists_exists. split.
  - destruct (filter joined l) as [|r k] eqn:Hf; [done|]. intros _.
    exists r. apply and_comm, (list_elem_of_filter joined).
    rewrite Hf. apply list_elem_of_here.
  - intros (r & Hr & Hj) Hnil.
    assert (r ∈ filter joined l) as Hin by by apply list_elem_of_filter.
    rewrite Hnil in Hin. by apply elem_of_nil in Hin.
Qed.

(** X1. The three numbers that [generate_scatter_html] returns: the last
  is the number of horses of the race, with or without runs; the first
  is the number of runs with both a cushion and a moisture, over all
  horses, which is the number of points of the page; the second is the
  number of horses with at least one such run, and is at most either of
  the other two. *)
Theorem render_counts (rd : race_data) (tc tm : json) (dl : string)
  (rn : Z) :
let '(p, (pts, with_data, total)) := generate_scatter_html rd tc tm dl rn in
total = length (horses rd) ∧
pts = sum_list ((λ h, length (filter joined h.2)) <$> horses rd) ∧
pts = sum_list ((λ jh, length (races jh)) <$> HORSES p) ∧
with_data = length (filter (λ h, Exists joined h.2) (horses rd)) ∧
(with_data ≤ total)%nat ∧ (with_data ≤ pts)%nat.
Proof.
unfold generate_scatter_html. cbv beta iota zeta.
rewrite js_horses_of_spec. cbn [HORSES].
set (s := ri_surface (info rd)). set (d := ri_distance (info rd)).
assert (length (filter (λ h, races h ≠ []) (embedded_horse s d <$> horses rd))
        = length (filter (λ h, Exists joined h.2) (horses rd))) as Hwd.
{ induction (horses rd) as [|h hs IH]; [done|].
  rewrite fmap_cons, !filter_cons.
  destruct (decide (Exists joined h.2)) as [He|He].
  - rewrite decide_True; [simpl; by rewrite IH|].
    simpl. intros Hnil%fmap_nil_inv.
    by apply filter_joined_nonempty in He.
  - rewrite decide_False; [done|].
    simpl. intros Hne. apply He, filter_joined_nonempty.
    intros Hnil. apply Hne. by rewrite Hnil. }
assert (sum_list ((λ h, length (races h)) <$> (embedded_horse s d <$> horses rd))
        = sum_list ((λ h, length (filter joined h.2)) <$> horses rd)) as Hpts.
{ rewrite <- list_fmap_compose. f_equal. apply list_fmap_ext.
  intros i h _. unfold embedded_horse. cbn [races compose].
  by rewrite length_fmap. }
split; [by rewrite length_fmap|]. split; [done|]. split; [done|].
split; [done|]. rewrite Hwd, Hpts, length_fmap. split.
- apply length_filter.
- apply (sum_list_nonempty (λ h, length (filter joined h.2))).
  intros h. rewrite <- filter_joined_nonempty.
  by destruct (filter joined h.2).
Qed.

(** X2. What the page shows of a run is what the race data has: date,
  venue, surface, distance, race name, result, cushion and moisture of
  each embedded run are those of the run it stands for; and the run is
  marked as a good result exactly when it has a finishing position and
  that position is 3 or better. *)
Theorem embedded_runs_verbatim (rd : race_data) (tc tm : json)
  (dl : string) (rn : Z) :
Forall2
  (λ h jh,
     Forall2
       (λ r j,
          js_date j = date r ∧ js_venue j = venue r ∧
          js_surface j = surface r ∧ js_distance j = distance r ∧
          js_race_name j = race_name r ∧ js_result j = result r ∧
          js_cushion j = cushion r ∧ js_moisture j = moisture r ∧
          (good j = true ↔ ∃ n, result r = Some n ∧ n ≤ 3))
       (filter joined h.2) (races jh))
  (horses rd) (HORSES (generate_scatter_html rd tc tm dl rn).1).
Proof.
cbn [fst generate_scatter_html HORSES]. rewrite js_horses_of_spec.
apply Forall2_fmap_r, Forall_Forall2_diag, Forall_forall.
intros h _. simpl.
apply Forall2_fmap_r, Forall_Forall2_diag, Forall_forall.
intros r _. simpl. repeat (split; [done|]).
unfold is_good. destruct (result r) as [n|].
- rewrite bool_decide_eq_true. split; [by exists n|].
  by intros (? & [= <-] & ?).
- split; [done|]. by intros (? & ? & ?).
Qed.

End renderer_more.

(* ------------------------------------------------------------------ *)
(** ** The join: again, elsewhere, and when it fails *)
(* ------------------------------------------------------------------ *)

Section join_more.
Import Join Samples Renderer.

Lemma for_each_Raise {A B : Type} (f : A → exc B) (l : list A) (e : exn) :
  for_each f l = Raise e → ∃ x, x ∈ l ∧ f x = Raise e.
Proof.
  induction l as [|x l IH]; simpl; [done|].
  destruct (f x) as [y|e'] eqn:Hx; simpl.
  - destruct (for_each f l) as [ys|e'] eqn:Hl; simpl; [done|].
    intros [= ->]. destruct (IH eq_refl) as (x' & Hin & Hx').
    exists x'. split; [by apply list_elem_of_further|done].
  - intros [= ->]. exists x. split; [apply list_elem_of_here|done].
Qed.

Lemma for_each_ext_Forall {A B : Type} (f g : A → exc B) (l : list A) :
  Forall (λ x, f x = g x) l → for_each f l = for_each g l.
Proof.
  induction 1 as [|x l Hx _ IH]; simpl; [done|]. by rewrite Hx, IH.
Qed.

Lemma key_of_set (c m : json) (r : run) :
  key_of (set_moisture m (set_cushion c r)) = key_of r.
Proof. done. Qed.

Lemma selected_field_set (c m : json) (r : run) :
  selected_field (set_moisture m (set_cushion c r)) = selected_field r.
Proof. done. Qed.

Lemma set_set (c m c' m' : json) (r : run) :
  set_moisture m' (set_cushion c' (set_moisture m (set_cushion c r)))
  = set_moisture m' (set_cushion c' r).
Proof. done. Qed.

Lemma link_run_again (db : gmap string json) (r r' : run) :
  link_run db r = Ok r' → link_run db r' = Ok r'.
Proof.
  intros H. pose proof (link_run_Ok db r r' H) as Hr.
  destruct (db !! key_of r) as [entry|] eqn:Hk.
  - destruct Hr as [(m & c & -> & Hc) ->].
    rewrite (link_run_hit db _ m c); [|by rewrite key_of_set|done].
    rewrite selected_field_set, set_set. simpl. by rewrite Hc.
  - subst r'. rewrite link_run_miss; [|by rewrite key_of_set].
    by rewrite set_set.
Qed.

(** X3. Joining twice is joining once: when the join of a race against a
  table went through, the join of its result against the same table goes
  through too and changes nothing. *)
Theorem join_idempotent (cushion_db : gmap string json)
  (rd rd' : race_data) :
link_cushion_data rd cushion_db = Ok rd' →
link_cushion_data rd' cushion_db = Ok rd'.
Proof.
intros [Hi Hhs]%link_cushion_data_Ok. apply link_cushion_data_Ok.
split; [done|]. apply Forall_Forall2_diag, Forall_forall. intros h' Hh'.
split; [done|]. apply Forall_Forall2_diag, Forall_forall. intros r' Hr'.
apply list_elem_of_lookup in Hh' as [i Hi'].
destruct (Forall2_lookup_r _ _ _ _ _ Hhs Hi') as (h & _ & _ & Hrs).
apply list_elem_of_lookup in Hr' as [j Hj].
destruct (Forall2_lookup_r _ _ _ _ _ Hrs Hj) as (r & _ & Hr).
by apply link_run_again in Hr.
Qed.

(** The join of the sample, joined again. *)
Lemma join_idempotent_witness :
link_cushion_data
  {| info := info sample_race;
     horses :=
       [ ("A", [ set_moisture (JFloat 11.2)
                   (set_cushion (JFloat 9.8) turf_run);
                 set_moisture (JFloat 4.5)
                   (set_cushion (JFloat 9.8) dirt_run);
                 old_run ]);
         ("B", []) ] |}
  (json_load_object table)
= Ok {| info := info sample_race;
        horses :=
          [ ("A", [ set_moisture (JFloat 11.2)
                      (set_cushion (JFloat 9.8) turf_run);
                    set_moisture (JFloat 4.5)
                      (set_cushion (JFloat 9.8) dirt_run);
                    old_run ]);
            ("B", []) ] |}.
Proof.
apply (join_idempotent (json_load_object table) sample_race).
vm_compute. reflexivity.
Defined.

(** X4. The join of a race looks at the table only under the keys of its
  runs: two tables that agree on those keys give the same outcome, the
  same joined race or the same exception. *)
Theorem join_local (db1 db2 : gmap string json) (rd : race_data) :
Forall (λ r, db1 !! key_of r = db2 !! key_of r) (all_runs rd) →
link_cushion_data rd db1 = link_cushion_data rd db2.
Proof.
unfold all_runs, link_cushion_data. intros H.
assert (for_each (link_horse db1) (horses rd)
        = for_each (link_horse db2) (horses rd)) as ->; [|done].
apply for_each_ext_Forall, Forall_forall. intros h Hh.
unfold link_horse.
assert (for_each (link_run db1) h.2 = for_each (link_run db2) h.2) as ->;
  [|done].
apply for_each_ext_Forall, Forall_forall. intros r Hr.
rewrite Forall_forall in H. unfold link_run. rewrite (H r); [done|].
apply list_elem_of_join. exists h.2. split; [done|].
apply list_elem_of_fmap. by exists h.
Qed.

(** Adding an entry for another day leaves the join of the sample as it
  is. *)
Lemma join_local_witness :
link_cushion_data sample_race (json_load_object table)
= link_cushion_data sample_race
    (<["20260222_京都" := JNull]> (json_load_object table)).
Proof.
apply (join_local (json_load_object table)
         (<["20260222_京都" := JNull]> (json_load_object table))
         sample_race).
vm_compute. repeat constructor.
Defined.

Lemma link_cushion_data_Raise (cushion_db : gmap string json) (rd : race_data)
    (e : exn) :
  link_cushion_data rd cushion_db = Raise e →
  ∃ r entry,
    r ∈ all_runs rd ∧ cushion_db !! key_of r = Some entry ∧
    ((e = TypeError ∧ ∀ m, entry ≠ JObj m) ∨
     (e = KeyError "cushion" ∧ ∃ m, entry = JObj m ∧ m !! "cushion" = None)).
Proof.
  unfold link_cushion_data. intros H.
  destruct (for_each (link_horse cushion_db) (horses rd)) as [hs|e'] eqn:Hf;
    [done|].
  simpl in H. injection H as ->.
  apply for_each_Raise in Hf as (h & Hh & Hf). unfold link_horse in Hf.
  destruct (for_each (link_run cushion_db) h.2) as [rs|e'] eqn:Hr; [done|].
  simpl in Hf. injection Hf as ->.
  apply for_each_Raise in Hr as (r & Hr & He).
  assert (r ∈ all_runs rd) as Hin.
  { apply list_elem_of_join. exists h.2. split; [done|].
    apply list_elem_of_fmap. by exists h. }
  destruct (cushion_db !! key_of r) as [entry|] eqn:Hk.
  - exists r, entry. split; [done|]. split; [done|].
    destruct entry as [| | | | | |m];
      try (rewrite (link_run_not_dict _ _ _ Hk) in He by done;
           injection He as <-; left; by split).
    destruct (m !! "cushion") as [c|] eqn:Hc.
    + by rewrite (link_run_hit _ _ _ _ Hk Hc) in He.
    + rewrite (link_run_no_cushion _ _ _ Hk Hc) in He. injection He as <-.
      right. split; [done|]. by exists m.
  - by rewrite (link_run_miss _ _ Hk) in He.
Qed.

(** X5. The only exceptions that the join raises are the two of
  [entry['cushion']]: a [TypeError] when the entry that a run looks up is
  not a dict, a [KeyError] for 'cushion' when it is a dict without that
  key.  The moisture is read with [get] from what is by then known to be
  a dict, so that a missing moisture field never raises. *)
Theorem join_exceptions (cushion_db : gmap string json) (rd : race_data)
  (e : exn) :
link_cushion_data rd cushion_db = Raise e →
∃ r entry,
  r ∈ all_runs rd ∧ cushion_db !! key_of r = Some entry ∧
  ((e = TypeError ∧ ∀ m, entry ≠ JObj m) ∨
   (e = KeyError "cushion" ∧ ∃ m, entry = JObj m ∧ m !! "cushion" = None)).
Proof. apply link_cushion_data_Raise. Qed.

(** The sample against the table whose entry has no cushion. *)
Lemma join_exceptions_witness :
∃ r entry,
  r ∈ all_runs sample_race ∧
  json_load_object table_no_cushion !! key_of r = Some entry ∧
  ((KeyError "cushion" = TypeError ∧ ∀ m, entry ≠ JObj m) ∨
   (KeyError "cushion" = KeyError "cushion" ∧
    ∃ m, entry = JObj m ∧ m !! "cushion" = None)).
Proof.
apply (join_exceptions (json_load_object table_no_cushion) sample_race
         (KeyError "cushion")).
vm_compute. reflexivity.
Defined.

Lemma Forall2_filter_both {A B : Type} (P : A → B → Prop)
    (Q1 : A → Prop) (Q2 : B → Prop) `{!∀ x, Decision (Q1 x)}
    `{!∀ y, Decision (Q2 y)} (l : list A) (k : list B) :
  (∀ x y, P x y → Q1 x ↔ Q2 y) → Forall2 P l k →
  Forall2 (λ x y, P x y ∧ Q1 x) (filter Q1 l) (filter Q2 k).
Proof.
  intros HQ. induction 1 as [|x y l k Hxy _ IH]; [constructor|].
  rewrite !filter_cons. pose proof (HQ x y Hxy) as Hiff.
  destruct (decide (Q1 x)) as [H1|H1], (decide (Q2 y)) as [H2|H2]; try tauto.
  by constructor.
Qed.

Lemma link_run_joined_iff (db : gmap string json) (r r' : run) :
  link_run db r = Ok r' → (measured db r ↔ joined r').
Proof.
  intros H%link_run_Ok. unfold measured, joined.
  destruct (db !! key_of r) as [entry|].
  - by destruct H as [_ ->].
  - subst r'. simpl. split; [done|]. by intros [? _].
Qed.

(** X6. From the table to the page: when the join of a race goes through,
  the page drawn from its result shows, for each horse and in the order
  of the race data, the runs for which the table has both values, and
  only those; each shown run has the cushion of its entry and the
  moisture field that its surface selects. *)
Theorem page_shows_measured_runs (cushion_db : gmap string json)
  (rd rd' : race_data) (tc tm : json) (dl : string) (rn : Z) :
link_cushion_data rd cushion_db = Ok rd' →
Forall2
  (λ h jh,
     name jh = h.1 ∧
     Forall2
       (λ r j,
          js_date j = date r ∧ js_venue j = venue r ∧
          js_race_name j = race_name r ∧ js_result j = result r ∧
          ∃ entry, cushion_db !! key_of r = Some entry ∧
                   js_cushion j = field_of entry "cushion" ∧
                   js_moisture j = field_of entry (selected_field r))
       (filter (measured cushion_db) h.2) (races jh))
  (horses rd) (HORSES (generate_scatter_html rd' tc tm dl rn).1).
Proof.
intros [_ Hhs]%link_cushion_data_Ok.
cbn [fst generate_scatter_html HORSES]. rewrite js_horses_of_spec.
apply Forall2_fmap_r.
eapply Forall2_impl; [exact Hhs|]. intros h h' [Hn Hrs]. simpl.
split; [done|]. apply Forall2_fmap_r.
eapply Forall2_impl.
{ apply (Forall2_filter_both (λ r r', link_run cushion_db r = Ok r')
           (measured cushion_db) joined); [|exact Hrs].
  intros r r' Hr. by apply link_run_joined_iff. }
intros r r' [Hr Hm]. simpl. apply link_run_Ok in Hr.
unfold measured in Hm.
destruct (cushion_db !! key_of r) as [entry|] eqn:Hk; [|done].
destruct Hr as [_ ->]. simpl. repeat (split; [done|]). by exists entry.
Qed.

(** The page of the sample: the two runs of the day the table has. *)
Lemma page_shows_measured_runs_witness :
Forall2
  (λ h jh,
     name jh = h.1 ∧
     Forall2
       (λ r j,
          js_date j = date r ∧ js_venue j = venue r ∧
          js_race_name j = race_name r ∧ js_result j = result r ∧
          ∃ entry, json_load_object table !! key_of r = Some entry ∧
                   js_cushion j = field_of entry "cushion" ∧
                   js_moisture j = field_of entry (selected_field r))
       (filter (measured (json_load_object table)) h.2) (races jh))
  (horses sample_race)
  (HORSES
     (generate_scatter_html
        {| info := info sample_race;
           horses :=
             [ ("A", [ set_moisture (JFloat 11.2)
                         (set_cushion (JFloat 9.8) turf_run);
                       set_moisture (JFloat 4.5)
                         (set_cushion (JFloat 9.8) dirt_run);
                       old_run ]);
               ("B", []) ] |}
        (JFloat 9.5) (JFloat 12.0) "05/31" 11).1).
Proof.
apply (page_shows_measured_runs (json_load_object table) sample_race).
vm_compute. reflexivity.
Defined.

End join_more.

(* ------------------------------------------------------------------ *)
(** ** File names and the links of the index *)
(* ------------------------------------------------------------------ *)

Section index_more.
Import Index.

Lemma chars_replace_slash (s : string) :
  ¬ has_char "/"%char (replace_slash s).
Proof.
  unfold has_char, chars.
  induction s as [|c s IH]; simpl; [apply not_elem_of_nil|].
  apply not_elem_of_cons. split; [|done].
  destruct (Ascii.eqb_spec c "/"); [done|congruence].
Qed.

Lemma chars_remove_space (s : string) :
  ¬ has_char " "%char (remove_space s) ∧
  (¬ has_char "/"%char s → ¬ has_char "/"%char (remove_space s)).
Proof.
  unfold has_char, chars.
  induction s as [|c s [IH1 IH2]]; simpl.
  - split; [apply not_elem_of_nil|done].
  - destruct (Ascii.eqb_spec c " ") as [->|Hc]; simpl.
    + split; [done|]. intros [_ H]%not_elem_of_cons. auto.
    + split.
      * apply not_elem_of_cons. split; [congruence|done].
      * intros [H1 H2]%not_elem_of_cons.
        apply not_elem_of_cons. auto.
Qed.

Lemma replace_slash_id (s : string) :
  ¬ has_char "/"%char s → replace_slash s = s.
Proof.
  unfold has_char, chars.
  induction s as [|c s IH]; simpl; [done|].
  intros [Hc Hs]%not_elem_of_cons. rewrite IH by done.
  destruct (Ascii.eqb_spec c "/"); [congruence|done].
Qed.

Lemma remove_space_id (s : string) :
  ¬ has_char " "%char s → remove_space s = s.
Proof.
  unfold has_char, chars.
  induction s as [|c s IH]; simpl; [done|].
  intros [Hc Hs]%not_elem_of_cons. rewrite IH by done.
  destruct (Ascii.eqb_spec c " "); [congruence|done].
Qed.

Lemma length_remove_space (s : string) :
  (String.length (remove_space s) ≤ String.length s)%nat.
Proof.
  induction s as [|c s IH]; simpl; [done|].
  destruct (Ascii.eqb c " "); simpl; lia.
Qed.

Lemma length_replace_slash (s : string) :
  String.length (replace_slash s) = String.length s.
Proof. induction s as [|c s IH]; simpl; [done|]. by rewrite IH. Qed.

(** X7. The part of a page's file name that comes from the race name has
  no slash and no space, whatever the race name; it is never longer
  than the race name; cleaning a clean name changes nothing, and a race
  name without slash and space is used as it is. *)
Theorem safe_name_clean (rname : string) :
¬ has_char "/"%char (safe_name rname) ∧
¬ has_char " "%char (safe_name rname) ∧
(String.length (safe_name rname) ≤ String.length rname)%nat ∧
safe_name (safe_name rname) = safe_name rname ∧
(¬ has_char "/"%char rname → ¬ has_char " "%char rname →
 safe_name rname = rname).
Proof.
unfold safe_name.
pose proof (chars_replace_slash rname) as Hslash.
destruct (chars_remove_space (replace_slash rname)) as [Hspace Hkeep].
specialize (Hkeep Hslash).
split; [done|]. split; [done|]. split; [|split].
- etrans; [apply length_remove_space|]. by rewrite length_replace_slash.
- by rewrite (replace_slash_id _ Hkeep), (remove_space_id _ Hspace).
- intros H1 H2. by rewrite (replace_slash_id _ H1), (remove_space_id _ H2).
Qed.

Lemma entries_of_elem (v : string) (rnum : Z) (rname : string)
    (total pts : nat) (rs : list summary) :
  (rnum, rname, total, pts) ∈ entries_of v rs ↔
  (v, rnum, rname, total, pts) ∈ rs.
Proof.
  unfold entries_of. rewrite list_elem_of_omap. split.
  - intros ([[[[v0 n] nm] t] p] & Hs & He).
    destruct (decide (v0 = v)) as [->|]; [|done]. by injection He as -> -> -> ->.
  - intros Hs. exists (v, rnum, rname, total, pts). split; [done|].
    by rewrite decide_True.
Qed.

Lemma link_of_inj (v : string) (e1 e2 : entry) :
  link_of v e1 = link_of v e2 → e1 = e2.
Proof.
  destruct e1 as [[[n1 s1] t1] p1], e2 as [[[n2 s2] t2] p2]. simpl.
  intros H. injection H as _ -> -> -> ->. done.
Qed.

(** X8. Which races the index links to: a summary gets its link, in the
  block of its venue, exactly when its venue is one of the ten of the
  fixed list.  A race whose venue is anything else, the '?' of an
  unknown venue code among them, is not in the index, although its page
  was written. *)
Theorem index_links_iff (results_summary : list summary)
  (jra_live : gmap string (gmap string json)) (date_label : string)
  (venue : string) (rnum : Z) (rname : string) (total pts : nat) :
(∃ sec, sec ∈ sections (generate_index results_summary jra_live date_label) ∧
        sec_venue sec = venue ∧
        link_of venue (rnum, rname, total, pts) ∈ sec_links sec) ↔
((venue, rnum, rname, total, pts) ∈ results_summary ∧
 venue ∈ VENUE_ORDER).
Proof.
rewrite sections_spec. split.
- intros (sec & (v & -> & Hv)%list_elem_of_fmap & Heq & Hl).
  simpl in Heq. subst v. cbn [sec_links] in Hl.
  apply list_elem_of_filter in Hv as [_ Hv]. split; [|done].
  apply list_elem_of_fmap in Hl as (e & He%link_of_inj & Hin). subst e.
  unfold sorted in Hin.
  rewrite (merge_sort_Permutation entry_le) in Hin.
  by apply entries_of_elem.
- intros [Hs Hv]. apply entries_of_elem in Hs.
  eexists. split.
  + apply list_elem_of_fmap. exists venue. split; [reflexivity|].
    apply list_elem_of_filter. split; [|done].
    intros Hnil. rewrite Hnil in Hs. by apply elem_of_nil in Hs.
  + cbn [sec_venue sec_links]. split; [done|]. apply list_elem_of_fmap.
    exists (rnum, rname, total, pts). split; [reflexivity|]. unfold sorted.
    by rewrite (merge_sort_Permutation entry_le).
Qed.

End index_more.

(* ------------------------------------------------------------------ *)
(** ** The run as a whole *)
(* ------------------------------------------------------------------ *)

Section pipeline_more.
Import Pipeline Samples.
Variable scrape_race_data : string → option race_data.

Lemma get_or_fetch_cases (rid : string) (w : world) :
  match cache w !! rid, scrape_race_data rid with
  | Some rd, _ => get_or_fetch scrape_race_data rid w = (w, Some rd)
  | None, Some rd =>
      get_or_fetch scrape_race_data rid w
      = ({| cache := <[rid := rd]> (cache w);
            trace := trace w ++ [Scraped rid; CacheWritten rid rd] |},
         Some rd)
  | None, None =>
      get_or_fetch scrape_race_data rid w = (emit (Scraped rid) w, None)
  end.
Proof.
  unfold get_or_fetch.
  destruct (cache w !! rid), (scrape_race_data rid); try done.
  simpl. by rewrite <- app_assoc.
Qed.

Lemma process_race_eq jra_live cushion_db out_dir dl (w : world)
    (rs : list Index.summary) (r : race) :
  process_race scrape_race_data jra_live cushion_db out_dir dl w rs r
  = match get_or_fetch scrape_race_data (race_id r) w with
    | (w1, None) => (w1, Ok rs)
    | (w1, Some rd) =>
        match Join.link_cushion_data rd cushion_db with
        | Raise e => (w1, Raise e)
        | Ok rd' =>
            let g := Renderer.generate_scatter_html rd'
                       (target_cushion jra_live (venue r))
                       (target_moisture jra_live (venue r) (surface r))
                       dl (race_num r) in
            (emit (PageWritten out_dir (page_file r) g.1) w1,
             Ok (rs ++ [(venue r, race_num r, race_name r,
                         page_total g.1, page_pts g.1)]))
        end
    end.
Proof.
  unfold process_race.
  destruct (get_or_fetch scrape_race_data (race_id r) w) as [w1 [rd|]];
    [|done].
  by destruct (Join.link_cushion_data rd cushion_db).
Qed.

(** X9. The cache is read through: when [get_or_fetch] gives the data of a
  race, the cache holds that data under the race id afterwards, and
  asking again gives the same data and does nothing; data that was not
  in the cache before is what the scraper returned.  When it gives
  nothing, the race was not cached, the scraper found nothing, and the
  cache is as it was. *)
Theorem get_or_fetch_read_through (rid : string) (w : world) :
match get_or_fetch scrape_race_data rid w with
| (w1, Some rd) =>
    cache w1 !! rid = Some rd ∧
    get_or_fetch scrape_race_data rid w1 = (w1, Some rd) ∧
    (cache w !! rid = Some rd ∧ w1 = w ∨
     cache w !! rid = None ∧ scrape_race_data rid = Some rd)
| (w1, None) =>
    cache w !! rid = None ∧ scrape_race_data rid = None ∧
    cache w1 = cache w
end.
Proof.
pose proof (get_or_fetch_cases rid w) as H.
destruct (cache w !! rid) as [rd|] eqn:Hc.
- rewrite H. split; [done|]. split; [done|]. by left.
- destruct (scrape_race_data rid) as [rd|] eqn:Hs; rewrite H.
  + split; [apply lookup_insert_eq|]. split; [|by right].
    unfold get_or_fetch. simpl. by rewrite lookup_insert_eq.
  + done.
Qed.

(** The five ways a turn of the loop can go: the data is cached or
    scraped, and then joined or not; or there is no data. *)
Ltac turn_cases r w0 cushion_db :=
  rewrite process_race_eq;
  let Hg := fresh "Hg" in
  let rd := fresh "rd" in
  pose proof (get_or_fetch_cases (race_id r) w0) as Hg;
  destruct (cache w0 !! race_id r) as [rd|] eqn:Hc;
    [|destruct (scrape_race_data (race_id r)) as [rd|] eqn:Hs];
  rewrite Hg; clear Hg;
  [ destruct (Join.link_cushion_data rd cushion_db) as [rd'|e] eqn:Hl
  | destruct (Join.link_cushion_data rd cushion_db) as [rd'|e] eqn:Hl
  | ];
  cbn [fst snd emit cache trace].

(** The loop keeps what every turn keeps. *)
Lemma process_races_inv (I : world → list Index.summary → Prop)
    (J : world → exn → Prop) jra_live cushion_db out_dir dl
    (races : list race) :
  (∀ w rs r, r ∈ races → I w rs →
     match process_race scrape_race_data jra_live cushion_db out_dir dl
             w rs r with
     | (w', Ok rs') => I w' rs'
     | (w', Raise e) => J w' e
     end) →
  ∀ w rs, I w rs →
    match process_races scrape_race_data jra_live cushion_db out_dir dl
            w rs races with
    | (w', Ok rs') => I w' rs'
    | (w', Raise e) => J w' e
    end.
Proof.
  induction races as [|r races IH]; intros Hstep w rs HI; simpl; [done|].
  pose proof (Hstep w rs r (list_elem_of_here _ _) HI) as H1.
  destruct (process_race scrape_race_data jra_live cushion_db out_dir dl
              w rs r) as [w1 [rs1|e]]; [|done].
  apply IH; [|done]. intros w' rs' r' Hr'. apply Hstep.
  by apply list_elem_of_further.
Qed.

(** What a turn does to the cache. *)
Lemma process_race_cache jra_live cushion_db out_dir dl (w : world)
    (rs : list Index.summary) (r : race) :
  let w1 := (process_race scrape_race_data jra_live cushion_db out_dir dl
               w rs r).1 in
  cache w1 = cache w ∨
  ∃ rd, cache w !! race_id r = None ∧
        scrape_race_data (race_id r) = Some rd ∧
        cache w1 = <[race_id r := rd]> (cache w).
Proof.
  turn_cases r w cushion_db; auto; right; by exists rd.
Qed.

(** What holds of the world before the run, is kept by every turn of
    the loop and by the writing of the index, holds after the run. *)
Lemma main_inv (I : world → Prop) (args : arguments)
    (date_str out_dir : string) (races : list race)
    (jra_live : gmap string (gmap string json))
    (table : list (string * json)) (w : world) :
  I w →
  (∀ dl w0 rs r, r ∈ filter_races args races → I w0 →
     I (process_race scrape_race_data jra_live (json_load_object table)
          out_dir dl w0 rs r).1) →
  (∀ w0 ix, I w0 → I (emit (IndexWritten out_dir ix) w0)) →
  I (main scrape_race_data args date_str out_dir races jra_live table w).1.
Proof.
  intros HI Hstep Hindex. unfold main.
  pose proof (process_races_inv (λ w1 _, I w1) (λ w1 _, I w1) jra_live
                (json_load_object table) out_dir
                (substring 4 2 date_str ++ "/" ++ substring 6 2 date_str)%string
                (filter_races args races)) as Hinv.
  specialize (Hinv) with (w := w) (rs := []).
  destruct (process_races scrape_race_data jra_live (json_load_object table)
              out_dir _ w [] (filter_races args races)) as [w1 [rs|e]];
    simpl; [apply Hindex|]; (apply Hinv; [|done]);
    intros w0 rs0 r Hr HI0;
    pose proof (Hstep
                  (substring 4 2 date_str ++ "/" ++ substring 6 2 date_str)%string
                  w0 rs0 r Hr HI0) as H1;
    by destruct (process_race _ _ _ _ _ w0 rs0 r) as [? [?|?]].
Qed.

Lemma main_cache (args : arguments) (date_str out_dir : string)
    (races : list race) (jra_live : gmap string (gmap string json))
    (table : list (string * json)) (w : world) :
  let w' := (main scrape_race_data args date_str out_dir races jra_live
               table w).1 in
  (∀ rid rd, cache w !! rid = Some rd → cache w' !! rid = Some rd) ∧
  (∀ rid rd, cache w !! rid = None → cache w' !! rid = Some rd →
     scrape_race_data rid = Some rd ∧
     ∃ r, flat_race races r ∧ race_id r = rid).
Proof.
  intros w'. subst w'.
  apply (main_inv
           (λ w1,
              (∀ rid rd, cache w !! rid = Some rd →
                         cache w1 !! rid = Some rd) ∧
              (∀ rid rd, cache w !! rid = None → cache w1 !! rid = Some rd →
                 scrape_race_data rid = Some rd ∧
                 ∃ r, flat_race races r ∧ race_id r = rid))).
  - split; [auto|]. intros ? ? H1 H2. congruence.
  - intros dl w0 rs r Hr [Hold Hnew].
    assert (flat_race races r) as Hflat.
    { pose proof (filter_races_flat args races) as Hf.
      rewrite Forall_forall in Hf. by apply Hf. }
    destruct (process_race_cache jra_live (json_load_object table) out_dir
                dl w0 rs r) as [->|(rd & Hc & Hs & ->)]; [done|]. split.
    + intros rid rd0 H0. destruct (decide (race_id r = rid)) as [<-|Hne].
      * apply Hold in H0. congruence.
      * rewrite lookup_insert_ne by done. by apply Hold.
    + intros rid rd0 H0 H1. destruct (decide (race_id r = rid)) as [<-|Hne].
      * rewrite lookup_insert_eq in H1. injection H1 as <-.
        split; [done|]. by exists r.
      * rewrite lookup_insert_ne in H1 by done. by apply Hnew.
  - done.
Qed.

(** X10. The cache only grows: whatever the run does, an entry that the
  cache had before is there unchanged afterwards, and an entry that is
  new is what the scraper returned for that race id, the id of a race
  of the list that is not an obstacle race. *)
Theorem cache_append_only (args : arguments) (date_str out_dir : string)
  (races : list race) (jra_live : gmap string (gmap string json))
  (table : list (string * json)) (w : world) :
let w' := (main scrape_race_data args date_str out_dir races jra_live
             table w).1 in
(∀ rid rd, cache w !! rid = Some rd → cache w' !! rid = Some rd) ∧
(∀ rid rd, cache w !! rid = None → cache w' !! rid = Some rd →
   scrape_race_data rid = Some rd ∧
   ∃ r, flat_race races r ∧ race_id r = rid).
Proof. apply main_cache. Qed.

Lemma filter_races_sublist (args : arguments) (races : list race) :
  filter_races args races `sublist_of` races.
Proof.
  unfold filter_races. etrans; [apply sublist_filter|].
  destruct (arg_race args) as [n|]; [case_bool_decide|];
    try (etrans; [apply sublist_filter|]);
    (destruct (arg_venue args) as [v|]; [case_bool_decide|];
     try apply sublist_filter; done).
Qed.

(** X11. What the arguments keep of the race list: the kept races are
  races of the list, in the order of the list; a race is kept exactly
  when it is not an obstacle race, its venue is the one asked for, and
  its number is the one asked for.  An empty venue and the race number 0
  ask for nothing. *)
Theorem filter_races_spec (args : arguments) (races : list race) :
filter_races args races `sublist_of` races ∧
∀ r, r ∈ filter_races args races ↔
     r ∈ races ∧ surface r ≠ "障" ∧
     (∀ v, arg_venue args = Some v → v ≠ "" → venue r = v) ∧
     (∀ n, arg_race args = Some n → n ≠ 0 → race_num r = n).
Proof.
split; [apply filter_races_sublist|]. unfold filter_races.
intros r. rewrite list_elem_of_filter.
{
  destruct (arg_race args) as [n|]; [case_bool_decide|];
    rewrite ?list_elem_of_filter;
    (destruct (arg_venue args) as [v|]; [case_bool_decide|];
     rewrite ?list_elem_of_filter; naive_solver).
}
Qed.

Lemma not_fetch_page out_dir file p : ¬ is_fetch (PageWritten out_dir file p).
Proof. by intros []. Qed.

(** X12. The cache is trusted: when every race that the arguments keep is
  in the cache, the run scrapes nothing and writes no cache file, and
  the cache is afterwards what it was. *)
Theorem cached_races_not_fetched (args : arguments)
  (date_str out_dir : string) (races : list race)
  (jra_live : gmap string (gmap string json))
  (table : list (string * json)) (w : world) :
Forall (λ r, is_Some (cache w !! race_id r)) (filter_races args races) →
let w' := (main scrape_race_data args date_str out_dir races jra_live
             table w).1 in
cache w' = cache w ∧
∃ new, trace w' = trace w ++ new ∧ Forall (λ e, ¬ is_fetch e) new.
Proof.
intros Hcached w'. subst w'.
apply (main_inv
         (λ w1,
            cache w1 = cache w ∧
            ∃ new, trace w1 = trace w ++ new ∧
                   Forall (λ e, ¬ is_fetch e) new)).
- split; [done|]. exists []. by rewrite app_nil_r.
- intros dl w0 rs0 r Hr [Hc0 (new & Ht & Hnew)].
  rewrite Forall_forall in Hcached. specialize (Hcached r Hr).
  rewrite <- Hc0 in Hcached. destruct Hcached as [rd0 Hrd0].
  turn_cases r w0 (json_load_object table); try congruence.
  + split; [done|]. eexists (new ++ [_]).
    rewrite Ht, <- app_assoc. split; [done|].
    apply Forall_app. split; [done|].
    constructor; [apply not_fetch_page|constructor].
  + split; [done|]. by exists new.
- intros w0 ix [Hc0 (new & Ht & Hnew)]. split; [done|].
  eexists (new ++ [_]). simpl. rewrite Ht, <- app_assoc. split; [done|].
  apply Forall_app. split; [done|]. constructor; [by intros []|constructor].
Qed.


Lemma not_index_of_race (r : race) (e : event) :
  event_of_race r e → ¬ is_index e.
Proof. destruct e; simpl; tauto. Qed.

Lemma app_events (w : world) (ev1 ev2 : list event) (t : list event)
    (P : event → Prop) :
  t = (trace w ++ ev1) ++ ev2 → Forall P ev1 → Forall P ev2 →
  ∃ events, t = trace w ++ events ∧ Forall P events.
Proof.
  intros -> H1 H2. exists (ev1 ++ ev2). rewrite <- app_assoc.
  split; [done|]. by apply Forall_app.
Qed.

(** A turn writes no index, and raises what the join raises. *)
Lemma process_race_outcome jra_live cushion_db out_dir dl (w : world)
    (rs : list Index.summary) (r : race) :
  ∃ new,
    trace (process_race scrape_race_data jra_live cushion_db out_dir dl
             w rs r).1 = trace w ++ new ∧
    Forall (λ e, ¬ is_index e) new ∧
    match (process_race scrape_race_data jra_live cushion_db out_dir dl
             w rs r).2 with
    | Ok _ => True
    | Raise e => e = TypeError ∨ e = KeyError "cushion"
    end.
Proof.
  destruct (process_race_trace scrape_race_data jra_live cushion_db
              out_dir dl w rs r) as (new & Ht & Hall & _).
  exists new. split; [done|]. split.
  - eapply Forall_impl; [exact Hall|]. apply not_index_of_race.
  - clear Ht Hall new. turn_cases r w cushion_db; try done;
      apply link_cushion_data_Raise in Hl as (? & ? & _ & _ & [[-> _]|[-> _]]);
      auto.
Qed.


Lemma has_page_app out_dir (ev1 ev2 : list event) (s : Index.summary) :
  has_page out_dir ev1 s → has_page out_dir (ev1 ++ ev2) s.
Proof.
  intros (p & Hp & Hc). exists p. split; [|done].
  apply elem_of_app. by left.
Qed.

(** X14. No link of the index is dead: when the run returns, every link of
  the index names the file of a page that this run wrote, in the same
  directory, and the numbers of horses and of points beside the link are
  those of that page. *)
Theorem index_links_have_pages (args : arguments)
  (date_str out_dir : string) (races : list race)
  (jra_live : gmap string (gmap string json))
  (table : list (string * json)) (w : world) :
match main scrape_race_data args date_str out_dir races jra_live table w
with
| (w', Ok _) =>
    ∃ events ix,
      trace w' = trace w ++ events ++ [IndexWritten out_dir ix] ∧
      Forall
        (λ sec,
           Forall
             (λ l, ∃ p, PageWritten out_dir (Index.href l) p ∈ events ∧
                        Index.l_total l = page_total p ∧
                        Index.l_pts l = page_pts p)
             (Index.sec_links sec))
        (Index.sections ix)
| (w', Raise _) => True
end.
Proof.
unfold main.
set (dl := (substring 4 2 date_str ++ "/" ++ substring 6 2 date_str)%string).
set (I := λ (w1 : world) (rs : list Index.summary),
       ∃ events, trace w1 = trace w ++ events ∧
                 Forall (has_page out_dir events) rs).
pose proof (process_races_inv I (λ _ _, True)
              jra_live (json_load_object table) out_dir dl
              (filter_races args races)) as Hinv.
specialize (Hinv) with (w := w) (rs := []).
assert (I w []) as HI by (exists []; by rewrite app_nil_r).
assert (∀ w0 rs0 r, r ∈ filter_races args races → I w0 rs0 →
          match process_race scrape_race_data jra_live
                  (json_load_object table) out_dir dl w0 rs0 r with
          | (w', Ok rs') => I w' rs'
          | (w', Raise e) => True
          end) as Hstep.
{ intros w0 rs0 r _ (ev0 & Ht0 & Hev0).
  assert (∀ ev1, Forall (has_page out_dir (ev0 ++ ev1)) rs0) as Hmore.
  { intros ev1. eapply Forall_impl; [exact Hev0|].
    intros s. apply has_page_app. }
  turn_cases r w0 (json_load_object table); try done; unfold I; simpl.
  - eexists (ev0 ++ [_]). rewrite Ht0, <- app_assoc. split; [done|].
    apply Forall_app. split; [apply Hmore|].
    constructor; [|constructor]. eexists. split; [|done].
    apply elem_of_app. right. apply list_elem_of_here.
  - eexists (ev0 ++ [_; _; _]). rewrite Ht0, <- !app_assoc.
    split; [done|].
    apply Forall_app. split; [apply Hmore|].
    constructor; [|constructor]. eexists. split; [|done].
    apply elem_of_app. right. do 2 apply list_elem_of_further.
    apply list_elem_of_here.
  - eexists (ev0 ++ [_]). rewrite Ht0, <- app_assoc. split; [done|].
    apply Hmore. }
specialize (Hinv Hstep HI).
destruct (process_races scrape_race_data jra_live (json_load_object table)
            out_dir dl w [] (filter_races args races)) as [w1 [rs|e]];
  [|done].
destruct Hinv as (events & Ht & Hev).
exists events, (Index.generate_index rs jra_live dl).
cbn [fst emit trace]. rewrite Ht, <- app_assoc. split; [done|].
rewrite sections_spec.
apply Forall_fmap, Forall_forall. intros v _. simpl.
apply Forall_fmap, Forall_forall. intros e He.
unfold Index.sorted in He.
rewrite (merge_sort_Permutation Index.entry_le) in He.
destruct e as [[[rnum rname] total] pts].
apply entries_of_elem in He. rewrite Forall_forall in Hev.
by destruct (Hev _ He) as (p & Hp & Htot & Hpts); exists p.
Qed.

Lemma join_total (cushion_db : gmap string json) :
  (∀ k entry, cushion_db !! k = Some entry → has_cushion entry) →
  ∀ rd, ∃ rd', Join.link_cushion_data rd cushion_db = Ok rd'.
Proof.
  intros Hdb rd. apply link_cushion_data_is_Ok.
  apply Forall_forall. intros h _. apply Forall_forall. intros r _.
  intros entry. apply Hdb.
Qed.

Lemma available_insert (w0 w1 : world) (rid : string) (rd : race_data)
    (r : race) :
  cache w1 = <[rid := rd]> (cache w0) →
  scrape_race_data rid = Some rd →
  available scrape_race_data w1 r ↔ available scrape_race_data w0 r.
Proof.
  unfold available. intros -> Hs.
  destruct (decide (rid = race_id r)) as [->|Hne].
  - rewrite lookup_insert_eq, Hs. split; intros _; right; by eexists.
  - by rewrite lookup_insert_ne.
Qed.

Lemma written_files_cons (e : event) (t : list event) :
  written_files (e :: t)
  = match e with
    | PageWritten _ file _ => file :: written_files t
    | _ => written_files t
    end.
Proof. by destruct e. Qed.

Lemma process_races_complete jra_live cushion_db out_dir dl
    (races : list race) :
  (∀ rd, ∃ rd', Join.link_cushion_data rd cushion_db = Ok rd') →
  ∀ w rs, ∃ w' rs' new,
    process_races scrape_race_data jra_live cushion_db out_dir dl
      w rs races = (w', Ok rs') ∧
    trace w' = trace w ++ new ∧
    written_files new
    = page_file <$> filter (available scrape_race_data w) races.
Proof.
  intros Hjoin. induction races as [|r races IH]; intros w rs.
  - exists w, rs, []. simpl. by rewrite app_nil_r.
  - cbn [process_races]. turn_cases r w cushion_db;
      try (destruct (Hjoin rd) as [? ?]; congruence);
      match goal with
      | |- context [process_races _ _ _ _ _ ?w1 ?rs1 races] =>
          destruct (IH w1 rs1) as (w' & rs' & new & Hp & Ht & Hf)
      end;
      cbn [emit trace cache] in Ht.
    + eexists w', rs', (_ :: new). split; [exact Hp|]. split.
      * rewrite Ht, <- app_assoc. reflexivity.
      * rewrite filter_cons, decide_True by (left; by rewrite Hc).
        by rewrite !written_files_cons, Hf, fmap_cons.
    + eexists w', rs', (_ :: _ :: _ :: new). split; [exact Hp|]. split.
      * rewrite Ht, <- !app_assoc. reflexivity.
      * rewrite filter_cons, decide_True by (right; by rewrite Hs).
        rewrite !written_files_cons, Hf, fmap_cons. f_equal. f_equal.
        apply list_filter_iff. intros r'.
        by apply (available_insert _ _ (race_id r) rd).
    + eexists w', rs', (_ :: new). split; [exact Hp|]. split.
      * rewrite Ht, <- app_assoc. reflexivity.
      * rewrite filter_cons, decide_False.
        2:{ unfold available. rewrite Hc, Hs. by intros [[? ?]|[? ?]]. }
        by rewrite written_files_cons, Hf.
Qed.


Lemma scraped_ids_cons (e : event) (t : list event) :
  scraped_ids (e :: t)
  = match e with
    | Scraped rid => rid :: scraped_ids t
    | _ => scraped_ids t
    end.
Proof. by destruct e. Qed.

Lemma process_races_scrapes jra_live cushion_db out_dir dl
    (races : list race) (w : world) (rs : list Index.summary) :
  ∃ new,
    trace (process_races scrape_race_data jra_live cushion_db out_dir dl
             w rs races).1 = trace w ++ new ∧
    scraped_ids new `sublist_of` (race_id <$> races) ∧
    Forall (λ rid, cache w !! rid = None) (scraped_ids new).
Proof.
  revert w rs. induction races as [|r races IH]; intros w rs.
  - exists []. simpl. rewrite app_nil_r. by repeat constructor.
  - cbn [process_races]. rewrite fmap_cons.
    turn_cases r w cushion_db;
      try match goal with
      | |- context [process_races _ _ _ _ _ ?w1 ?rs1 races] =>
          destruct (IH w1 rs1) as (new & Ht & Hsub & Hnone);
          cbn [emit trace cache] in Ht, Hnone
      end.
    + eexists (_ :: new). split; [rewrite Ht, <- app_assoc; reflexivity|].
      rewrite scraped_ids_cons. split; [by apply sublist_cons|done].
    + exists []. simpl. rewrite app_nil_r.
      split; [done|]. split; [apply sublist_nil_l|constructor].
    + eexists (_ :: _ :: _ :: new).
      split; [rewrite Ht, <- !app_assoc; reflexivity|].
      rewrite !scraped_ids_cons. split; [by apply sublist_skip|].
      constructor; [done|]. eapply Forall_impl; [exact Hnone|].
      intros rid Hrid. simpl in Hrid.
      by apply lookup_insert_None in Hrid as [? _].
    + eexists [_; _]. split; [reflexivity|].
      rewrite !scraped_ids_cons. simpl.
      split; [apply sublist_skip, sublist_nil_l|by repeat constructor].
    + eexists (_ :: new). split; [rewrite Ht, <- app_assoc; reflexivity|].
      rewrite scraped_ids_cons. split; [by apply sublist_skip|].
      by constructor.
Qed.

Lemma main_scrapes (args : arguments)
    (date_str out_dir : string) (races : list race)
    (jra_live : gmap string (gmap string json))
    (table : list (string * json)) (w : world) :
  ∃ new,
    trace (main scrape_race_data args date_str out_dir races jra_live
             table w).1 = trace w ++ new ∧
    scraped_ids new `sublist_of` (race_id <$> filter_races args races) ∧
    Forall (λ rid, cache w !! rid = None) (scraped_ids new) ∧
    (NoDup (race_id <$> races) → NoDup (scraped_ids new)).
Proof.
  unfold main.
  destruct (process_races_scrapes jra_live (json_load_object table) out_dir
              (substring 4 2 date_str ++ "/" ++ substring 6 2 date_str)%string
              (filter_races args races) w [])
    as (new & Ht & Hsub & Hnone).
  assert (NoDup (race_id <$> races) → NoDup (scraped_ids new)) as Hnodup.
  { intros Hnd. eapply sublist_NoDup; [|exact Hsub].
    eapply sublist_NoDup; [exact Hnd|].
    apply fmap_sublist, filter_races_sublist. }
  destruct (process_races scrape_race_data jra_live (json_load_object table)
              out_dir _ w [] (filter_races args races)) as [w1 [rs|e]];
    simpl in Ht.
  - exists (new ++ [IndexWritten out_dir
                      (Index.generate_index rs jra_live
                         (substring 4 2 date_str ++ "/" ++
                          substring 6 2 date_str)%string)]).
    cbn [fst emit trace]. rewrite Ht, <- app_assoc. split; [done|].
    assert (scraped_ids (new ++ [IndexWritten out_dir
                      (Index.generate_index rs jra_live
                         (substring 4 2 date_str ++ "/" ++
                          substring 6 2 date_str)%string)])
            = scraped_ids new) as ->; [|done].
    unfold scraped_ids. rewrite omap_app. simpl. apply app_nil_r.
  - by exists new.
Qed.

(** X16. The scraper is asked in the order of the race list, at most once
  for each race that the arguments keep, and only for races that were
  not in the cache at the start; when no two races of the list have the
  same id, no race is scraped twice. *)
Theorem scrapes_follow_race_list (args : arguments)
  (date_str out_dir : string) (races : list race)
  (jra_live : gmap string (gmap string json))
  (table : list (string * json)) (w : world) :
∃ new,
  trace (main scrape_race_data args date_str out_dir races jra_live
           table w).1 = trace w ++ new ∧
  scraped_ids new `sublist_of` (race_id <$> filter_races args races) ∧
  Forall (λ rid, cache w !! rid = None) (scraped_ids new) ∧
  (NoDup (race_id <$> races) → NoDup (scraped_ids new)).
Proof. apply main_scrapes. Qed.

End pipeline_more.

Section pipeline_more_samples.
Import Pipeline Samples.

(** The run on the sample, whose only race is cached. *)
Lemma cached_races_not_fetched_witness :
let w' := (main no_scrape no_arguments "20260531" "output"
             [listed_race] ∅ table cached).1 in
cache w' = cache cached ∧
∃ new, trace w' = trace cached ++ new ∧ Forall (λ e, ¬ is_fetch e) new.
Proof.
apply (cached_races_not_fetched no_scrape no_arguments "20260531" "output"
         [listed_race] ∅ table cached).
vm_compute. repeat constructor. by eexists.
Defined.


End pipeline_more_samples.

(* ------------------------------------------------------------------ *)
(** ** The venue names of the past runs *)
(* ------------------------------------------------------------------ *)

Section history.
Import History VenueCodec.

Lemma expand_venue_not_key (items : list (string * string)) (v : string) :
  ¬ (v ∈ items.*1) → expand_venue items v = v.
Proof.
  induction items as [|[short full] items IH]; simpl; [done|].
  intros [Hne Hv]%not_elem_of_cons.
  rewrite bool_decide_false by done. by apply IH.
Qed.

Lemma normalize_venue_cases (v : string) :
  (v ∈ abbreviations ∧ normalize_venue v ∈ canonical_venues ∧
   normalize_venue (normalize_venue v) = normalize_venue v) ∨
  (¬ (v ∈ abbreviations) ∧ normalize_venue v = v).
Proof.
  destruct (decide (v ∈ abbreviations)) as [Hin|Hout].
  - left. split; [done|].
    unfold abbreviations, venue_short_map in Hin. simpl in Hin.
    rewrite !elem_of_cons, elem_of_nil in Hin.
    destruct_or!; try done; subst v;
      (split; [by apply (bool_decide_unpack _)|by vm_compute]).
  - right. split; [done|]. by apply expand_venue_not_key.
Qed.

Lemma decode_cases (code : string) :
  decode code ∈ canonical_venues ∨ decode code = "?".
Proof.
  unfold decode. destruct (VENUE_CODES !! code) as [v|] eqn:Hv; [left|by right].
  unfold VENUE_CODES in Hv. apply elem_of_list_to_map_2 in Hv.
  rewrite !elem_of_cons, elem_of_nil in Hv.
  destruct_or!; try done; simplify_eq; by apply (bool_decide_unpack _).
Qed.

Lemma canonical_fixed (c : string) :
  c ∈ canonical_venues → normalize_venue c = c.
Proof.
  unfold canonical_venues. rewrite !elem_of_cons, elem_of_nil.
  intros H. destruct_or!; try done; subst c; by vm_compute.
Qed.

Lemma canonical_abbreviation (c : string) :
  c ∈ canonical_venues → c ∈ abbreviations → c = "中京".
Proof.
  unfold canonical_venues. rewrite !elem_of_cons, elem_of_nil.
  intros H. destruct_or!; try done; subst c; try done;
    intros H2; exfalso; revert H2; by apply (bool_decide_unpack _).
Qed.

(** X17. The venue names of past runs.  Writing out an abbreviation is
  done once and for all: doing it again changes nothing.  Each of the
  ten abbreviations gives one of the ten venue names; each of the ten
  venue names, and any text that is not an abbreviation, is left as it
  is; the only abbreviation that can be the outcome is '中京', which is
  its own full name.  The venue that the race list gives for a venue
  code, '?' included, is left as it is, so that races and past runs name
  venues alike. *)
Theorem normalize_venue_spec (v : string) :
normalize_venue (normalize_venue v) = normalize_venue v ∧
(v ∈ abbreviations → normalize_venue v ∈ canonical_venues) ∧
(¬ (v ∈ abbreviations) → normalize_venue v = v) ∧
(v ∈ canonical_venues → normalize_venue v = v) ∧
(normalize_venue v ∈ abbreviations → normalize_venue v = "中京") ∧
(∀ code, normalize_venue (decode code) = decode code).
Proof.
split; [|split; [|split; [|split; [|split]]]].
- destruct (normalize_venue_cases v) as [(_ & _ & H)|[_ H]]; [done|].
  by rewrite !H.
- intros Hin. by destruct (normalize_venue_cases v) as [(_ & H & _)|[? _]].
- intros Hout. by destruct (normalize_venue_cases v) as [(? & _)|[_ H]].
- apply canonical_fixed.
- destruct (normalize_venue_cases v) as [(_ & Hc & _)|[Hout ->]]; [|done].
  by apply canonical_abbreviation.
- intros code. destruct (decode_cases code) as [Hc| ->].
  + by apply canonical_fixed.
  + by vm_compute.
Qed.

End history.

(* ------------------------------------------------------------------ *)
(** ** The past runs of a horse *)
(* ------------------------------------------------------------------ *)

Section history_rows.
Import History.
Variable isdigit : string → bool.
Variable int : string → option Z.
Variable search_surface_distance : string → option (string * Z).
Variable strip_digits : string → string.

Local Abbreviation parse_row :=
  (parse_row isdigit int search_surface_distance strip_digits).
Local Abbreviation get_horse_results :=
  (get_horse_results isdigit int search_surface_distance strip_digits).

Lemma add_rows_omap (l : list (list string)) (acc : list run) :
  fold_left (add_row isdigit int search_surface_distance strip_digits) l acc
  = acc ++ omap parse_row l.
Proof.
  revert acc. induction l as [|cells l IH]; intros acc; simpl.
  - by rewrite app_nil_r.
  - rewrite IH. unfold add_row. destruct (parse_row cells); [|done].
    by rewrite <- app_assoc.
Qed.

Lemma omap_kept {A B : Type} (f : A → option B) (l : list A) :
  ∃ kept, kept `sublist_of` l ∧
          Forall2 (λ x y, f x = Some y) kept (omap f l).
Proof.
  induction l as [|x l (kept & Hsub & Hall)]; simpl.
  - exists []. split; constructor.
  - destruct (f x) as [y|] eqn:Hx.
    + exists (x :: kept). split; [by apply sublist_skip|by constructor].
    + exists kept. split; [by apply sublist_cons|done].
Qed.

Lemma length_omap {A B : Type} (f : A → option B) (l : list A) :
  (length (omap f l) ≤ length l)%nat.
Proof.
  induction l as [|x l IH]; csimpl; [done|]. destruct (f x); csimpl; lia.
Qed.

Lemma parse_row_Some (cells : list string) (r : run) :
  parse_row cells = Some r →
  (15 ≤ length cells)%nat ∧
  date r = nth 0 cells "" ∧ race_name r = nth 4 cells "" ∧
  venue r = normalize_venue (strip_digits (nth 1 cells "")) ∧
  (result r = None ↔ isdigit (nth 11 cells "") = false) ∧
  (search_surface_distance (nth 14 cells "") = None →
     surface r = "?" ∧ distance r = 0) ∧
  cushion r = JNull ∧ moisture r = JNull.
Proof.
  unfold History.parse_row. case_bool_decide as Hlen; [done|].
  destruct (isdigit (nth 11 cells "")) eqn:Hd; simpl.
  - destruct (int (nth 11 cells "")) as [n|]; simpl; [|done].
    intros [= <-]. simpl.
    destruct (search_surface_distance (nth 14 cells "")) as [g|];
      repeat split; try done; lia.
  - intros [= <-]. simpl.
    destruct (search_surface_distance (nth 14 cells "")) as [g|];
      repeat split; try done; lia.
Qed.

(** X18. The past runs of a horse are bounded and in the order of the
  page: there are at most [max_races] of them, and at most as many as
  the table has rows after its header; a page without the table gives
  no run; each run comes from a row of at least 15 cells among the
  first [max_races] rows after the header, in the order of the rows,
  with the date and the race name of that row, and with no result
  exactly when the text of the result cell is not all digits. *)
Theorem history_bounded (table : option (list (list string)))
  (max_races : nat) :
let rs := get_horse_results table max_races in
(length rs ≤ max_races)%nat ∧
match table with
| None => rs = []
| Some rows =>
    (length rs ≤ length rows - 1)%nat ∧
    ∃ kept,
      kept `sublist_of` take max_races (drop 1 rows) ∧
      Forall2
        (λ cells r,
           (15 ≤ length cells)%nat ∧
           date r = nth 0 cells "" ∧ race_name r = nth 4 cells "" ∧
           (result r = None ↔ isdigit (nth 11 cells "") = false))
        kept rs
end.
Proof.
unfold History.get_horse_results. destruct table as [rows|]; simpl.
- rewrite add_rows_omap. simpl.
  pose proof (length_omap parse_row (take max_races (drop 1 rows))) as Hlen.
  rewrite length_take, length_drop in Hlen.
  split; [lia|]. split; [lia|].
  destruct (omap_kept parse_row (take max_races (drop 1 rows)))
    as (kept & Hsub & Hall).
  exists kept. split; [done|].
  eapply Forall2_impl; [exact Hall|].
  intros cells r Hr. apply parse_row_Some in Hr. tauto.
- split; [lia|done].
Qed.

(** X19. Every past run comes out of [get_horse_results] with its venue
  written out, so that writing out again would change nothing, and with
  '中京' as the only abbreviation it can still be; and with neither
  cushion nor moisture, which it gets from the join alone. *)
Theorem history_runs_normalised (table : option (list (list string)))
  (max_races : nat) :
Forall
  (λ r,
     normalize_venue (venue r) = venue r ∧
     (venue r ∈ abbreviations → venue r = "中京") ∧
     cushion r = JNull ∧ moisture r = JNull ∧ ¬ joined r)
  (get_horse_results table max_races).
Proof.
unfold History.get_horse_results. destruct table as [rows|]; [|constructor].
rewrite add_rows_omap. simpl. apply Forall_forall. intros r Hr.
apply list_elem_of_omap in Hr as (cells & _ & Hr).
apply parse_row_Some in Hr as (_ & _ & _ & Hv & _ & _ & Hc & Hm).
rewrite Hv, Hc, Hm. split; [|split; [|split; [done|split; [done|]]]].
- destruct (normalize_venue_cases (strip_digits (nth 1 cells "")))
    as [(_ & _ & H)|[_ H]]; [done|]. by rewrite !H.
- destruct (normalize_venue_cases (strip_digits (nth 1 cells "")))
    as [(_ & H & _)|[Hout ->]]; [|done]. by apply canonical_abbreviation.
- unfold joined. rewrite Hc. by intros [? _].
Qed.

End history_rows.

(* ------------------------------------------------------------------ *)
(** ** The race list *)
(* ------------------------------------------------------------------ *)

Section race_list.
Import RaceList Pipeline VenueCodec.
Variable int : string → option Z.
Variable search_surface_distance : string → option (string * Z).
Variable match_race_name : string → option string.

Local Abbreviation race_of_link :=
  (race_of_link int search_surface_distance match_race_name).
Local Abbreviation add_links :=
  (add_links int search_surface_distance match_race_name).
Local Abbreviation get_race_list :=
  (get_race_list int search_surface_distance match_race_name).

Lemma race_of_link_Some (rid text : string) (r : race) :
  race_of_link rid text = Some r →
  race_id r = rid ∧ Pipeline.text r = text ∧
  venue r = decode (venue_code_of rid) ∧
  int (substring 10 2 rid) = Some (race_num r) ∧
  (search_surface_distance text = None →
     surface r = "?" ∧ distance r = 0) ∧
  race_name r = default text (match_race_name text).
Proof.
  unfold RaceList.race_of_link.
  destruct (int (substring 10 2 rid)) as [n|]; simpl; [|done].
  intros [= <-]. simpl.
  by destruct (search_surface_distance text).
Qed.

Lemma add_links_spec (links : list (string * string))
    (seen seen' : gset string) (races races' : list race) :
  add_links (seen, races) links = Some (seen', races') →
  (∀ rid, rid ∈ seen ↔ rid ∈ race_id <$> races) →
  NoDup (race_id <$> races) →
  ∃ added,
    races' = races ++ added ∧
    (∀ rid, rid ∈ seen' ↔ rid ∈ race_id <$> races') ∧
    NoDup (race_id <$> races') ∧
    (race_id <$> added) `sublist_of` links.*1 ∧
    (∀ rid, rid ∈ links.*1 → rid ∈ race_id <$> races') ∧
    Forall (λ r, ∃ text, (race_id r, text) ∈ links ∧
                         race_of_link (race_id r) text = Some r) added.
Proof.
  revert seen races.
  induction links as [|[rid text] links IH]; intros seen races; simpl.
  - intros [= <- <-] Hseen Hnd. exists []. rewrite app_nil_r.
    split; [done|]. split; [done|]. split; [done|].
    split; [constructor|]. split; [|constructor].
    intros rid' Hrid. by apply elem_of_nil in Hrid.
  - destruct (decide (rid ∈ seen)) as [Hin|Hout]; simpl.
    + intros H Hseen Hnd.
      destruct (IH _ _ H Hseen Hnd)
        as (added & -> & Hseen' & Hnd' & Hsub & Hall & Hfrom).
      exists added. split; [done|]. split; [done|]. split; [done|].
      split; [by apply sublist_cons|]. split.
      * intros rid' [->|Hr]%elem_of_cons; [|by apply Hall].
        rewrite fmap_app. apply elem_of_app. left. by apply Hseen.
      * eapply Forall_impl; [exact Hfrom|].
        intros r (t & Ht & Hr). exists t. split; [|done].
        by apply list_elem_of_further.
    + destruct (race_of_link rid text) as [r|] eqn:Hr; simpl; [|done].
      apply race_of_link_Some in Hr as Hr'. destruct Hr' as (Hid & _).
      intros H Hseen Hnd.
      destruct (IH _ _ H)
        as (added & -> & Hseen' & Hnd' & Hsub & Hall & Hfrom).
      * intros rid'. rewrite fmap_app, elem_of_app, elem_of_union,
          elem_of_singleton, Hseen. simpl.
        rewrite list_elem_of_singleton, Hid. tauto.
      * rewrite fmap_app. apply NoDup_app. split; [done|].
        split; [|simpl; apply NoDup_singleton].
        intros rid' Hr1 Hr2. simpl in Hr2.
        apply list_elem_of_singleton in Hr2. subst rid'.
        rewrite Hid in Hr1. by apply Hseen in Hr1.
      * exists (r :: added). rewrite <- app_assoc. split; [done|].
        rewrite <- app_assoc in Hseen', Hnd', Hall. simpl in *.
        split; [done|]. split; [done|]. split.
        { rewrite Hid. by apply sublist_skip. }
        split.
        { intros rid' [->|Hr']%elem_of_cons; [|by apply Hall].
          rewrite fmap_app. apply elem_of_app. right.
          rewrite fmap_cons, Hid. apply list_elem_of_here. }
        constructor.
        { exists text. rewrite Hid. split; [apply list_elem_of_here|done]. }
        eapply Forall_impl; [exact Hfrom|].
        intros r' (t & Ht & Hr'). exists t. split; [|done].
        by apply list_elem_of_further.
Qed.

Lemma get_race_list_spec (links : list (string * string))
    (races : list race) :
  get_race_list links = Some races →
  NoDup (race_id <$> races) ∧
  (race_id <$> races) `sublist_of` links.*1 ∧
  (∀ rid, rid ∈ links.*1 → rid ∈ race_id <$> races) ∧
  Forall (λ r, ∃ text, (race_id r, text) ∈ links ∧
                       race_of_link (race_id r) text = Some r) races.
Proof.
  unfold RaceList.get_race_list.
  destruct (add_links (∅, []) links) as [[seen' races']|] eqn:H; [|done].
  simpl. intros [= ->].
  destruct (add_links_spec _ _ _ _ _ H)
    as (added & -> & _ & Hnd & Hsub & Hall & Hfrom).
  - intros rid. simpl. rewrite elem_of_nil. set_solver.
  - constructor.
  - done.
Qed.


End race_list.

Section race_list_samples.
Import RaceList Pipeline VenueCodec Samples Samples2.

Example race_list_sample :
  race_id <$> default []
    (get_race_list sample_int no_match no_name sample_links)
  = ["202605010811"; "202605010804"].
Proof. by vm_compute. Qed.

(** An id of ten characters has no race number: [int('')] raises. *)
Example race_list_short_id :
  get_race_list sample_int no_match no_name [("2026050108", "11R")] = None.
Proof. by vm_compute. Qed.


(** X21. From the race list to the scraper: on a race list that
  [get_race_list] returned, the run asks the scraper for no race
  twice. *)
Theorem listed_races_scraped_once (int : string → option Z)
  (search_surface_distance : string → option (string * Z))
  (match_race_name : string → option string)
  (links : list (string * string)) (races : list race)
  (scrape_race_data : string → option race_data)
  (args : arguments) (date_str out_dir : string)
  (jra_live : gmap string (gmap string json))
  (table : list (string * json)) (w : world) :
get_race_list int search_surface_distance match_race_name links
  = Some races →
∃ new,
  trace (main scrape_race_data args date_str out_dir races jra_live
           table w).1 = trace w ++ new ∧
  NoDup (scraped_ids new).
Proof.
intros (Hnd & _)%get_race_list_spec.
destruct (main_scrapes scrape_race_data args date_str out_dir races
            jra_live table w) as (new & Ht & _ & _ & H).
exists new. auto.
Qed.

(** The run on the race list of the sample page. *)
Lemma listed_races_scraped_once_witness :
∃ new,
  trace (main no_scrape no_arguments "20260531" "output"
           (default []
              (get_race_list sample_int no_match no_name sample_links))
           ∅ table cached).1
  = trace cached ++ new ∧
  NoDup (scraped_ids new).
Proof.
apply (listed_races_scraped_once sample_int no_match no_name sample_links).
vm_compute. reflexivity.
Defined.

End race_list_samples.

(* ------------------------------------------------------------------ *)
(** ** The measurements of the day *)
(* ------------------------------------------------------------------ *)

Section live.
Import Live Pipeline Samples2.

Lemma add_cushion_lookup (result : gmap string (gmap string json))
    (div : string * option cushion_unit) (v : string) :
  add_cushion result div !! v
  = match (if decide (div.1 = v) then div.2 else None) with
    | Some u => Some {[ "cushion" := JFloat (cushion_value u);
                        "time_cushion" := JStr (time_cushion u) ]}
    | None => result !! v
    end.
Proof.
  unfold add_cushion. destruct div as [v' [u|]]; simpl.
  - destruct (decide (v' = v)) as [->|Hne].
    + by rewrite lookup_insert_eq.
    + by rewrite lookup_insert_ne.
  - by destruct (decide (v' = v)).
Qed.

Lemma cushion_fold_lookup (divs : list (string * option cushion_unit))
    (result : gmap string (gmap string json)) (v : string) :
  fold_left add_cushion divs result !! v
  = match last_unit v divs with
    | Some u => Some {[ "cushion" := JFloat (cushion_value u);
                        "time_cushion" := JStr (time_cushion u) ]}
    | None => result !! v
    end.
Proof.
  revert result. induction divs as [|div divs IH]; intros result; simpl.
  - done.
  - rewrite IH. destruct (last_unit v divs); [done|].
    apply add_cushion_lookup.
Qed.

(** What a block of the moisture page does to a key of a venue. *)
Lemma add_moisture_value (result : gmap string (gmap string json))
    (div : string * option moisture_unit) (v k : string) :
  live_value (add_moisture result div) v k
  = match (if decide (div.1 = v) then div.2 else None) with
    | Some u =>
        if decide (k = "turf_moisture")
        then Some (float_or_None (turf_mg u))
        else if decide (k = "dirt_moisture")
        then Some (float_or_None (dirt_mg u))
        else if decide (k = "time_moisture")
        then Some (JStr (time_moisture u))
        else live_value result v k
    | None => live_value result v k
    end.
Proof.
  unfold add_moisture, live_value. destruct div as [v' [u|]]; simpl.
  - destruct (decide (v' = v)) as [->|Hne].
    + destruct (result !! v) as [data|] eqn:Hd; rewrite lookup_insert_eq;
        simpl; repeat case_decide; subst; by simplify_map_eq.
    + destruct (result !! v'); by rewrite lookup_insert_ne.
  - by destruct (decide (v' = v)).
Qed.

Lemma moisture_fold_value (divs : list (string * option moisture_unit))
    (result : gmap string (gmap string json)) (v k : string) :
  live_value (fold_left add_moisture divs result) v k
  = match last_unit v divs with
    | Some u =>
        if decide (k = "turf_moisture")
        then Some (float_or_None (turf_mg u))
        else if decide (k = "dirt_moisture")
        then Some (float_or_None (dirt_mg u))
        else if decide (k = "time_moisture")
        then Some (JStr (time_moisture u))
        else live_value result v k
    | None => live_value result v k
    end.
Proof.
  revert result. induction divs as [|div divs IH]; intros result; simpl.
  - done.
  - rewrite IH, add_moisture_value.
    destruct (last_unit v divs) as [u|];
      destruct (if decide (div.1 = v) then div.2 else None);
      repeat case_decide; done.
Qed.

Lemma cushion_fold_value (divs : list (string * option cushion_unit))
    (v k : string) :
  live_value (fold_left add_cushion divs ∅) v k
  = match last_unit v divs with
    | Some u =>
        if decide (k = "cushion") then Some (JFloat (cushion_value u))
        else if decide (k = "time_cushion")
        then Some (JStr (time_cushion u))
        else None
    | None => None
    end.
Proof.
  unfold live_value. rewrite cushion_fold_lookup.
  destruct (last_unit v divs) as [u|]; simpl.
  - repeat case_decide; subst; by simplify_map_eq.
  - by rewrite lookup_empty.
Qed.

Lemma add_moisture_is_Some (result : gmap string (gmap string json))
    (div : string * option moisture_unit) (v : string) :
  is_Some (add_moisture result div !! v) ↔
  is_Some (result !! v) ∨
  is_Some (if decide (div.1 = v) then div.2 else None).
Proof.
  unfold add_moisture. destruct div as [v' [u|]]; simpl.
  - destruct (decide (v' = v)) as [->|Hne].
    + destruct (result !! v) as [data|] eqn:Hd;
        rewrite lookup_insert_eq; split; intros _; try (by eexists);
        right; by eexists.
    + destruct (result !! v'); rewrite lookup_insert_ne by done;
        split; [by left| |by left|]; by intros [?|[? ?]].
  - destruct (decide (v' = v)); split; [by left| |by left|];
      by intros [?|[? ?]].
Qed.

Lemma moisture_fold_is_Some (divs : list (string * option moisture_unit))
    (result : gmap string (gmap string json)) (v : string) :
  is_Some (fold_left add_moisture divs result !! v) ↔
  is_Some (result !! v) ∨ is_Some (last_unit v divs).
Proof.
  revert result. induction divs as [|div divs IH]; intros result; simpl.
  - split; [by left|]. by intros [?|[? ?]].
  - rewrite IH, add_moisture_is_Some.
    destruct (last_unit v divs) as [u|].
    + split; intros _; right; by eexists.
    + split; [intros [[?|?]|[? ?]]; try done; auto|].
      intros [?|?]; left; auto.
Qed.

(** X22. From the two pages to the target point.  The target cushion of a
  venue is the cushion of the last block of the cushion page that has
  its title and a unit, and 9.5 when there is none, also when the
  moisture page has the venue.  The target moisture is the value of the
  last such block of the moisture page, the dirt value for a race on
  'ダ' and the turf value for any other; it is null, not the fallback,
  when that block lacks the part; and it is the fallback, 5.0 or 12.0,
  when the moisture page has no such block. *)
Theorem live_targets (cushion_divs : list (string * option cushion_unit))
  (moisture_divs : list (string * option moisture_unit))
  (venue surface : string) :
let jra_live := fetch_jra_live cushion_divs moisture_divs in
target_cushion jra_live venue
= match last_unit venue cushion_divs with
  | Some u => JFloat (cushion_value u)
  | None => JFloat 9.5
  end ∧
target_moisture jra_live venue surface
= match last_unit venue moisture_divs with
  | Some u =>
      float_or_None (if bool_decide (surface = "ダ") then dirt_mg u
                     else turf_mg u)
  | None => if bool_decide (surface = "ダ") then JFloat 5.0
            else JFloat 12.0
  end ∧
(is_Some (jra_live !! venue) ↔
 is_Some (last_unit venue cushion_divs) ∨
 is_Some (last_unit venue moisture_divs)).
Proof.
intros jra_live. subst jra_live. unfold fetch_jra_live.
split; [|split].
- unfold target_cushion.
  change (default ∅ (?m !! venue) !! "cushion")
    with (live_value m venue "cushion").
  rewrite moisture_fold_value, cushion_fold_value.
  destruct (last_unit venue moisture_divs) as [mu|],
    (last_unit venue cushion_divs) as [cu|]; by repeat case_decide.
- unfold target_moisture. case_bool_decide.
  + change (default ∅ (?m !! venue) !! "dirt_moisture")
      with (live_value m venue "dirt_moisture").
    rewrite moisture_fold_value, cushion_fold_value.
    destruct (last_unit venue moisture_divs) as [mu|],
      (last_unit venue cushion_divs) as [cu|]; by repeat case_decide.
  + change (default ∅ (?m !! venue) !! "turf_moisture")
      with (live_value m venue "turf_moisture").
    rewrite moisture_fold_value, cushion_fold_value.
    destruct (last_unit venue moisture_divs) as [mu|],
      (last_unit venue cushion_divs) as [cu|]; by repeat case_decide.
- rewrite moisture_fold_is_Some, cushion_fold_lookup, lookup_empty.
  destruct (last_unit venue cushion_divs) as [cu|].
  + split; intros _; left; by eexists.
  + split; (intros [[? ?]|?]; [done|by right]).
Qed.

Example live_sample :
  let jra_live := fetch_jra_live sample_cushion_divs sample_moisture_divs in
  target_cushion jra_live "東京" = JFloat 9.8 ∧
  target_moisture jra_live "東京" "芝" = JFloat 11.2 ∧
  target_cushion jra_live "京都" = JFloat 9.5 ∧
  target_moisture jra_live "京都" "芝" = JNull ∧
  target_moisture jra_live "京都" "ダ" = JFloat 3.9 ∧
  target_moisture jra_live "中山" "芝" = JFloat 12.0.
Proof. by vm_compute. Qed.

End live.

(* ------------------------------------------------------------------ *)
(** ** The entries of a race *)
(* ------------------------------------------------------------------ *)

Section ordered_dict.
Context {V : Type}.

Lemma dict_set_keys (k : string) (v : V) (d : list (string * V))
    (k' : string) :
  k' ∈ (dict_set k v d).*1 ↔ k' = k ∨ k' ∈ d.*1.
Proof.
  induction d as [|[k0 v0] d IH]; simpl.
  - rewrite list_elem_of_singleton, elem_of_nil. tauto.
  - destruct (decide (k0 = k)) as [->|Hne]; simpl;
      rewrite !elem_of_cons; [tauto|]. rewrite IH. tauto.
Qed.

Lemma dict_set_NoDup (k : string) (v : V) (d : list (string * V)) :
  NoDup d.*1 → NoDup (dict_set k v d).*1.
Proof.
  induction d as [|[k0 v0] d IH]; simpl.
  - intros _. apply NoDup_singleton.
  - intros [Hk0 Hd]%NoDup_cons.
    destruct (decide (k0 = k)) as [->|Hne]; simpl.
    + by apply NoDup_cons.
    + apply NoDup_cons. split; [|by apply IH].
      rewrite dict_set_keys. by intros [?|?].
Qed.

Lemma dict_set_elem (k : string) (v : V) (d : list (string * V))
    (k' : string) (v' : V) :
  (k', v') ∈ dict_set k v d → (k' = k ∧ v' = v) ∨ (k', v') ∈ d.
Proof.
  induction d as [|[k0 v0] d IH]; simpl.
  - intros [= -> ->]%list_elem_of_singleton. by left.
  - destruct (decide (k0 = k)) as [->|Hne].
    + intros [[= -> ->]|H]%elem_of_cons; [by left|].
      right. by apply list_elem_of_further.
    + intros [[= -> ->]|H]%elem_of_cons.
      * right. apply list_elem_of_here.
      * destruct (IH H) as [?|?]; [by left|].
        right. by apply list_elem_of_further.
Qed.

Lemma dict_get_set (k : string) (v : V) (d : list (string * V))
    (k' : string) :
  dict_get k' (dict_set k v d)
  = if decide (k = k') then Some v else dict_get k' d.
Proof.
  induction d as [|[k0 v0] d IH]; simpl.
  - by destruct (decide (k = k')).
  - destruct (decide (k0 = k)) as [->|Hne]; simpl.
    + by destruct (decide (k = k')).
    + rewrite IH. destruct (decide (k0 = k')) as [->|?]; [|done].
      by rewrite decide_False.
Qed.

(** The dict made of a list of assignments. *)
Lemma dict_fold_spec {A : Type} (key : A → string) (val : A → V)
    (l : list A) (d : list (string * V)) :
  NoDup d.*1 →
  let d' := fold_left (λ d x, dict_set (key x) (val x) d) l d in
  NoDup d'.*1 ∧
  (∀ k, k ∈ d'.*1 ↔ k ∈ d.*1 ∨ k ∈ key <$> l) ∧
  (∀ k v, (k, v) ∈ d' → (k, v) ∈ d ∨ ∃ x, x ∈ l ∧ key x = k ∧ val x = v).
Proof.
  revert d. induction l as [|x l IH]; intros d Hnd; simpl.
  - split; [done|]. split; [|by left].
    intros k. rewrite elem_of_nil. tauto.
  - destruct (IH (dict_set (key x) (val x) d))
      as (Hnd' & Hkeys & Hvals); [by apply dict_set_NoDup|].
    split; [done|]. split.
    + intros k. rewrite Hkeys, dict_set_keys, elem_of_cons. tauto.
    + intros k v [H|(y & Hy & Hk & Hv)]%Hvals.
      * apply dict_set_elem in H as [[-> ->]|H]; [|by left].
        right. exists x. split; [apply list_elem_of_here|done].
      * right. exists y. split; [by apply list_elem_of_further|done].
Qed.

End ordered_dict.

Section scrape.
Import Scrape VenueCodec Renderer.
Variable isdigit : string → bool.
Variable int : string → option Z.
Variable search_surface_distance : string → option (string * Z).
Variable search_surface_distance_m : string → option (string * Z).
Variable strip_digits : string → string.
Variable entry_page_of : string → entry_page.
Variable results_table_of : string → option (list (list string)).

Local Abbreviation scrape_race_data :=
  (scrape_race_data isdigit int search_surface_distance
     search_surface_distance_m strip_digits entry_page_of
     results_table_of).

Lemma scrape_race_data_Some (race_id : string) (rd : race_data) :
  scrape_race_data race_id = Some rd →
  ∃ rows,
    table (entry_page_of race_id) = Some rows ∧
    ri_race_id (info rd) = race_id ∧
    ri_venue (info rd) = decode (venue_code_of race_id) ∧
    NoDup (horses rd).*1 ∧
    (∀ name, name ∈ (horses rd).*1 ↔ ∃ id, Some (name, id) ∈ rows) ∧
    Forall
      (λ h, ∃ id, Some (h.1, id) ∈ rows ∧
                  h.2 = History.get_horse_results isdigit int
                          search_surface_distance strip_digits
                          (results_table_of id) 10)
      (horses rd).
Proof.
  unfold Scrape.scrape_race_data.
  destruct (table (entry_page_of race_id)) as [rows|]; [|done].
  intros [= <-]. exists rows. simpl.
  split; [done|]. split; [done|]. split; [done|].
  destruct (dict_fold_spec fst
              (λ h : string * string,
                 History.get_horse_results isdigit int
                   search_surface_distance strip_digits
                   (results_table_of h.2) 10)
              (omap id rows) []) as (Hnd & Hkeys & Hvals); [constructor|].
  split; [exact Hnd|]. split.
  - intros name. rewrite Hkeys. simpl. rewrite elem_of_nil. split.
    + intros [[]|([n i] & -> & Hin)%list_elem_of_fmap].
      apply list_elem_of_omap in Hin as (o & Ho & Heq). simpl in *.
      subst o. by exists i.
    + intros [i Hi]. right. apply list_elem_of_fmap. exists (name, i).
      split; [done|]. apply list_elem_of_omap. by exists (Some (name, i)).
  - apply Forall_forall. intros [name runs] Hh.
    apply Hvals in Hh as [Hh|([n i] & Hin & Hn & Hr)];
      [by apply elem_of_nil in Hh|].
    simpl in *. subst n. exists i. split; [|done].
    apply list_elem_of_omap in Hin as (o & Ho & Heq). simpl in Heq.
    by subst o.
Qed.

Lemma scraped_runs (race_id : string) (rd : race_data) :
  scrape_race_data race_id = Some rd →
  Forall (λ h, (length h.2 ≤ 10)%nat ∧ Forall (λ r, ¬ joined r) h.2)
    (horses rd).
Proof.
  intros (rows & _ & _ & _ & _ & _ & Hruns)%scrape_race_data_Some.
  eapply Forall_impl; [exact Hruns|]. intros h (i & _ & ->). split.
  + unfold History.get_horse_results.
    destruct (results_table_of i) as [trs|]; simpl; [|lia].
    rewrite add_rows_omap. simpl.
    etrans; [apply length_omap|]. rewrite length_take. lia.
  + unfold History.get_horse_results.
    destruct (results_table_of i) as [trs|]; [|constructor].
    rewrite add_rows_omap. simpl. apply Forall_forall. intros r Hr.
    apply list_elem_of_omap in Hr as (cells & _ & Hr).
    apply parse_row_Some in Hr as (_ & _ & _ & _ & _ & _ & Hc & _).
    unfold joined. rewrite Hc. by intros [? _].
Qed.


Lemma pts_bound (n : nat) (hs : list (string * list run)) :
  Forall (λ h, (length h.2 ≤ n)%nat) hs →
  (sum_list ((λ h, length (filter joined h.2)) <$> hs)
   ≤ n * length hs)%nat.
Proof.
  induction 1 as [|h hs Hh _ IH]; csimpl; [lia|].
  pose proof (length_filter joined h.2). lia.
Qed.



End scrape.

Section scrape_samples.
Import Pipeline Samples Samples2.



End scrape_samples.

(* ------------------------------------------------------------------ *)
(** ** The deployment *)
(* ------------------------------------------------------------------ *)

Section deploy.
Import Deploy.
Variable listdir : list string.
Variable read_b64 : string → string.

Local Abbreviation deploy_to_github := (deploy_to_github listdir read_b64).

Lemma name_le_total : Total name_le.
Proof. intros a b. apply String.leb_total. Qed.

Lemma dict_get_elem {V : Type} (d : list (string * V)) (k : string)
    (v : V) :
  NoDup d.*1 → (k, v) ∈ d ↔ dict_get k d = Some v.
Proof.
  induction d as [|[k0 v0] d IH]; simpl.
  - intros _. rewrite elem_of_nil. split; [tauto|done].
  - intros [Hk0 Hd]%NoDup_cons. rewrite elem_of_cons, (IH Hd).
    destruct (decide (k0 = k)) as [->|Hne].
    + split.
      * intros [[= ->]|H]; [done|].
        exfalso. apply Hk0. apply (IH Hd) in H.
        apply list_elem_of_fmap. by exists (k, v).
      * intros [= ->]. by left.
    + split; [|by right]. by intros [[= ? ?]|H]; [congruence|].
Qed.

Lemma existing_fold (items d : list (string * string)) (k : string) :
  dict_get k (fold_left (λ d item, dict_set item.1 item.2 d) items d)
  = match last (filter (λ item, item.1 = k) items) with
    | Some item => Some item.2
    | None => dict_get k d
    end.
Proof.
  revert d. induction items as [|x items IH]; intros d; [done|].
  cbn [fold_left]. rewrite IH, dict_get_set, filter_cons.
  destruct (decide (x.1 = k)) as [Hx|Hx]; [|done].
  destruct (filter _ items) as [|y l] eqn:Hf; [reflexivity|].
  rewrite last_cons_cons.
  destruct (last (y :: l)) eqn:Hl; [done|]. by apply last_None in Hl.
Qed.

Lemma existing_of_spec (listing : option (list (string * string)))
    (k : string) :
  dict_get k (existing_of listing) = listed_digest listing k.
Proof.
  unfold existing_of, listed_digest. destruct listing as [items|]; [|done].
  rewrite existing_fold. simpl. by destruct (last _).
Qed.

Lemma existing_of_NoDup (listing : option (list (string * string))) :
  NoDup (existing_of listing).*1.
Proof.
  destruct listing as [items|]; [|constructor]. simpl.
  by apply (dict_fold_spec fst snd items []); constructor.
Qed.

Lemma uploaded_app (l k : list request) :
  uploaded (l ++ k) = uploaded l ++ uploaded k.
Proof. apply omap_app. Qed.

Lemma removed_app (l k : list request) :
  removed (l ++ k) = removed l ++ removed k.
Proof. apply omap_app. Qed.

Lemma uploaded_uploads (date_str : string)
    (existing : list (string * string)) (fs : list string) :
  uploaded (upload read_b64 date_str existing <$> fs)
  = (λ f, (f, dict_get f existing)) <$> fs.
Proof. induction fs as [|f fs IH]; [done|]. csimpl. by rewrite <- IH. Qed.

Lemma removed_uploads (date_str : string)
    (existing : list (string * string)) (fs : list string) :
  removed (upload read_b64 date_str existing <$> fs) = [].
Proof. by induction fs. Qed.

Lemma uploaded_removals (existing : list (string * string))
    (html_files : list string) :
  uploaded (removals existing html_files) = [].
Proof.
  induction existing as [|[f s] d IH]; [done|]. simpl.
  by destruct (endswith f ".html" && _).
Qed.

Lemma removed_removals (existing : list (string * string))
    (html_files : list string) :
  removed (removals existing html_files)
  = filter (λ item, is_html item.1 ∧ ¬ (item.1 ∈ html_files)) existing.
Proof.
  induction existing as [|[f s] d IH]; [done|]. simpl.
  rewrite filter_cons, <- IH. simpl.
  destruct (decide (is_html f ∧ ¬ f ∈ html_files)) as [[He Hin]|Hn].
  - unfold is_html in He. rewrite He, bool_decide_eq_false_2 by done.
    done.
  - destruct (endswith f ".html") eqn:He; [|done].
    destruct (bool_decide_reflect (f ∈ html_files)) as [Hin|Hin];
      [done|]. by destruct Hn.
Qed.

Lemma deploy_requests (config : gmap string string)
    (listing : option (list (string * string))) (date_str : string)
    (token repo : string) :
  config !! "github_token" = Some token →
  config !! "repo" = Some repo →
  let reqs := (deploy_to_github (Some config) listing date_str).1 in
  let html_files := filter is_html listdir in
  reqs = ListContents repo token
         :: (upload read_b64 date_str (existing_of listing)
               <$> sorted html_files)
         ++ removals (existing_of listing) html_files ∧
  uploaded reqs
  = (λ f, (f, listed_digest listing f)) <$> sorted html_files ∧
  removed reqs
  = filter (λ item, is_html item.1 ∧ ¬ (item.1 ∈ listdir))
      (existing_of listing).
Proof.
  intros Ht Hr. unfold Deploy.deploy_to_github. rewrite Ht, Hr.
  cbn [fst]. split; [done|]. split.
  - change (uploaded (?r :: ?l)) with (uploaded l).
    rewrite uploaded_app, uploaded_uploads, uploaded_removals, app_nil_r.
    apply list_fmap_ext. intros i f _. by rewrite existing_of_spec.
  - change (removed (?r :: ?l)) with (removed l).
    rewrite removed_app, removed_uploads, removed_removals. simpl.
    apply list_filter_iff. intros [f s]. simpl.
    unfold is_html. rewrite list_elem_of_filter. tauto.
Qed.

(** X26. What a deployment uploads: with a token and a repository in
  the configuration, the files uploaded are the [.html] files of the
  output directory and no other, each as often as the directory lists
  it, in ascending order of name; each goes with the digest that the
  listing of the host gives last under its name, and with none when
  the name is not listed or the listing failed. *)
Theorem deploy_uploads (config : gmap string string)
  (listing : option (list (string * string))) (date_str : string)
  (token repo : string) :
config !! "github_token" = Some token →
config !! "repo" = Some repo →
let reqs := (deploy_to_github (Some config) listing date_str).1 in
(uploaded reqs).*1 ≡ₚ filter is_html listdir ∧
Sorted name_le (uploaded reqs).*1 ∧
Forall (λ u, u.2 = listed_digest listing u.1) (uploaded reqs) ∧
(listing = None → Forall (λ u, u.2 = None) (uploaded reqs)).
Proof.
intros Ht Hr reqs.
destruct (deploy_requests config listing date_str token repo Ht Hr)
  as (_ & Hup & _).
fold reqs in Hup. rewrite Hup.
assert (∀ l, ((λ f, (f, listed_digest listing f)) <$> l).*1 = l) as ->.
{ intros l. rewrite <- list_fmap_compose.
  etrans; [|apply list_fmap_id]. by apply list_fmap_ext. }
split; [apply merge_sort_Permutation|].
split; [apply (Sorted_merge_sort name_le (Total0 := name_le_total))|].
split.
- apply Forall_fmap, Forall_forall. by intros f _.
- intros ->. apply Forall_fmap, Forall_forall. by intros f _.
Qed.

(** X27. What a deployment removes: with a token and a repository in
  the configuration, a file is removed exactly when the host lists it,
  its name ends in [.html] and the output directory has no file of
  that name; it is removed once, with the digest that the listing
  gives last for it, and after every upload.  So no file uploaded in
  the run is removed, and nothing is removed when the listing
  failed. *)
Theorem deploy_removals (config : gmap string string)
  (listing : option (list (string * string))) (date_str : string)
  (token repo : string) :
config !! "github_token" = Some token →
config !! "repo" = Some repo →
let reqs := (deploy_to_github (Some config) listing date_str).1 in
(∀ fname sha,
   (fname, sha) ∈ removed reqs ↔
   is_html fname ∧ ¬ (fname ∈ listdir) ∧
   listed_digest listing fname = Some sha) ∧
NoDup (removed reqs).*1 ∧
(∀ fname, fname ∈ (removed reqs).*1 → ¬ (fname ∈ (uploaded reqs).*1)) ∧
(∃ ups rems,
   reqs = ListContents repo token :: ups ++ rems ∧
   removed ups = [] ∧ uploaded rems = []) ∧
(listing = None → removed reqs = []).
Proof.
intros Ht Hr reqs.
destruct (deploy_requests config listing date_str token repo Ht Hr)
  as (Hreqs & Hup & Hrem).
fold reqs in Hreqs, Hup, Hrem.
pose proof (existing_of_NoDup listing) as Hnd.
assert (∀ fname sha,
          (fname, sha) ∈ removed reqs ↔
          is_html fname ∧ ¬ (fname ∈ listdir) ∧
          listed_digest listing fname = Some sha) as Hiff.
{ intros fname sha. rewrite Hrem, list_elem_of_filter. simpl.
  rewrite (dict_get_elem _ _ _ Hnd), existing_of_spec. tauto. }
split; [exact Hiff|]. split.
- rewrite Hrem. apply NoDup_fmap_fst.
  + intros k v1 v2 [_ H1]%list_elem_of_filter [_ H2]%list_elem_of_filter.
    apply (dict_get_elem _ _ _ Hnd) in H1, H2. congruence.
  + apply NoDup_filter. by eapply NoDup_fmap_1.
- split.
  + intros fname ([f s] & -> & Hin)%list_elem_of_fmap.
    apply Hiff in Hin as (_ & Hdir & _). simpl.
    rewrite Hup, <- list_fmap_compose.
    intros (g & -> & Hg)%list_elem_of_fmap. simpl in Hdir.
    apply Hdir. unfold sorted in Hg.
    rewrite merge_sort_Permutation in Hg.
    by apply list_elem_of_filter in Hg as [_ ?].
  + split.
    * eexists _, _. split; [exact Hreqs|].
      split; [apply removed_uploads|apply uploaded_removals].
    * intros ->. by rewrite Hrem.
Qed.

(** X28. When a deployment sends anything and how it ends: without a
  configuration file nothing is sent and nothing is raised; with a
  configuration that lacks the token or the repository nothing is sent
  and the missing key is raised, the token first; with both, the
  listing is asked for first, and the run ends in an index error
  exactly when the repository name has no slash, after every upload
  and every removal was sent. *)
Theorem deploy_outcome (config : option (gmap string string))
  (listing : option (list (string * string))) (date_str : string) :
let '(reqs, out) := deploy_to_github config listing date_str in
(reqs ≠ [] ↔
 ∃ c token repo, config = Some c ∧ c !! "github_token" = Some token ∧
                 c !! "repo" = Some repo ∧
                 head reqs = Some (ListContents repo token)) ∧
(∀ k, out = Some (MissingKey k) ↔
      reqs = [] ∧
      ∃ c, config = Some c ∧ c !! k = None ∧
           (k = "github_token" ∨
            k = "repo" ∧ is_Some (c !! "github_token"))) ∧
(out = Some IndexError ↔
 reqs ≠ [] ∧ ∃ c repo, config = Some c ∧ c !! "repo" = Some repo ∧
                       has_slash repo = false).
Proof.
unfold Deploy.deploy_to_github.
destruct config as [c|].
2:{ split; [|split].
    - split; [done|]. by intros (? & ? & ? & ? & _).
    - intros k. split; [done|]. by intros (_ & ? & ? & _).
    - split; [done|]. by intros (_ & ? & ? & ? & _). }
destruct (c !! "github_token") as [token|] eqn:Ht.
2:{ split; [|split].
    - split; [done|]. intros (? & ? & ? & [= <-] & ? & _). congruence.
    - intros k. split.
      + intros [= <-]. split; [done|]. exists c. by auto.
      + intros (_ & ? & [= <-] & Hk & [->|[-> [? ?]]]); [done|congruence].
    - split; [done|]. by intros [? _]. }
destruct (c !! "repo") as [repo|] eqn:Hr.
2:{ split; [|split].
    - split; [done|]. intros (? & ? & ? & [= <-] & ? & ? & _). congruence.
    - intros k. split.
      + intros [= <-]. split; [done|]. exists c.
        split; [done|]. split; [done|]. right. by rewrite Ht.
      + intros (_ & ? & [= <-] & Hk & [->|[-> _]]); [congruence|done].
    - split; [done|]. by intros [? _]. }
split; [|split].
- split; [|done]. intros _. by exists c, token, repo.
- intros k. split.
  + by destruct (has_slash repo).
  + by intros [? _].
- split.
  + destruct (has_slash repo) eqn:Hs; [done|]. intros _.
    split; [done|]. by exists c, repo.
  + intros (_ & ? & ? & [= <-] & ? & Hs).
    assert (x0 = repo) as -> by congruence. by rewrite Hs.
Qed.

End deploy.

Section deploy_samples.
Import Deploy Samples2.

Lemma deploy_uploads_witness :
  sample_config !! "github_token" = Some "t" ∧
  sample_config !! "repo" = Some "user/site" ∧
  let reqs := (deploy_to_github sample_dir sample_content
                 (Some sample_config) (Some sample_listing)
                 "2024-05-01").1 in
  (uploaded reqs).*1 ≡ₚ filter is_html sample_dir ∧
  Sorted name_le (uploaded reqs).*1 ∧
  Forall (λ u, u.2 = listed_digest (Some sample_listing) u.1)
    (uploaded reqs) ∧
  (Some sample_listing = None → Forall (λ u, u.2 = None) (uploaded reqs)).
Proof.
  split; [reflexivity|]. split; [reflexivity|].
  apply (deploy_uploads sample_dir sample_content sample_config
           (Some sample_listing) "2024-05-01" "t" "user/site");
    reflexivity.
Defined.

Lemma deploy_removals_witness :
  sample_config !! "github_token" = Some "t" ∧
  sample_config !! "repo" = Some "user/site" ∧
  ("old.html", "sha2")
    ∈ removed (deploy_to_github sample_dir sample_content
                 (Some sample_config) (Some sample_listing)
                 "2024-05-01").1.
Proof.
  split; [reflexivity|]. split; [reflexivity|].
  apply (deploy_removals sample_dir sample_content sample_config
           (Some sample_listing) "2024-05-01" "t" "user/site");
    [reflexivity|reflexivity|].
  split; [reflexivity|]. split; [|reflexivity].
  intros H. by repeat (apply elem_of_cons in H as [?|H]; [done|]);
    apply elem_of_nil in H.
Defined.

(** The requests of the sample deployment, in order. *)
Example deploy_sample :
  deploy_to_github sample_dir sample_content (Some sample_config)
    (Some sample_listing) "2024-05-01"
  = ([ ListContents "user/site" "t";
       Upload "index.html" "Update index.html (2024-05-01)"
         "b64:index.html" (Some "sha1");
       Upload "scatter_a.html" "Update scatter_a.html (2024-05-01)"
         "b64:scatter_a.html" None;
       Upload "scatter_b.html" "Update scatter_b.html (2024-05-01)"
         "b64:scatter_b.html" None;
       Remove "old.html" "Remove old file old.html" "sha2" ], None).
Proof. vm_compute. reflexivity. Qed.

End deploy_samples.
